(** * The waveshare 7in5 V2 e-Paper driver (driver.go), embedded in Rocq

    The Go driver is a sequence of calls on the GPIO/SPI library, on timing
    helpers and on the transaction helpers of its own package, plus one pure
    function that packs an image into the panel's bit-per-pixel buffer.

    The embedding keeps that shape:
    - the heap holds the [Epd] structs that [New] allocates; a driver is a
      pointer into it, as [*Epd] is in Go;
    - every call that reaches outside driver.go is recorded as one [event];
      a computation returns its outcome, the heap it leaves and the events it
      emitted, in order;
    - Go's [int] is modelled by [Z]; [/] and [%] are [Z.quot] and [Z.rem];
      the theorems on the packed buffer assume a geometry whose width, height
      and pixel count fit a 32-bit [int]: every [int] the driver computes
      then lies between 0 and the pixel count, and none wraps around;
    - a [byte] is a [Z] in [0, 255]; the only byte arithmetic of the driver,
      [pixel |= (0x80 >> px)], stays in that range by itself. *)

From Stdlib Require Import ZArith Lia.
From stdpp Require Import base option list list_numbers strings gmap.

Local Open Scope Z_scope.

(** ** The library types the driver uses *)

Module rpio.
(** [rpio.Pin] is a [uint8] pin number. *)
Definition Pin : Type := Z.
Inductive State : Type := Low | High.
Inductive Mode : Type := Input | Output.
Inductive SpiDev : Type := Spi0 | Spi1 | Spi2.
End rpio.

Module image.
Record Point : Type := { X : Z; Y : Z }.
Record Rectangle : Type := { Min : Point; Max : Point }.

(** [image.Rect] orders its corners. *)
Definition Rect (x0 y0 x1 y1 : Z) : Rectangle :=
  let '(x0, x1) := if x1 <? x0 then (x1, x0) else (x0, x1) in
  let '(y0, y1) := if y1 <? y0 then (y1, y0) else (y0, y1) in
  {| Min := {| X := x0; Y := y0 |}; Max := {| X := x1; Y := y1 |} |}.

Definition Dx (r : Rectangle) : Z := X (Max r) - X (Min r).
Definition Dy (r : Rectangle) : Z := Y (Max r) - Y (Min r).
End image.

(** ** Driver state, events and the execution monad *)

(** [type Epd struct] *)
Record Epd : Type := {
  dc : rpio.Pin;
  cs : rpio.Pin;
  rst : rpio.Pin;
  busy : rpio.Pin;
  bounds : image.Rectangle;
  bufferSize : Z;
  pixelWidth : Z
}.

(** The address of an [Epd] on the heap.  A [*Epd] is an [option loc]: [None]
    is the nil pointer. *)
Definition loc : Type := nat.
Abbreviation Heap := (gmap loc Epd).

(** What the driver does to the outside, one constructor per callee. *)
Inductive event : Type :=
| EvLog (msg : string)                          (* log.Println *)
| EvOpen                                        (* rpio.Open *)
| EvSpiBegin (dev : rpio.SpiDev)                (* rpio.SpiBegin *)
| EvSpiChipSelect (chip : Z)                    (* rpio.SpiChipSelect *)
| EvPinMode (p : rpio.Pin) (m : rpio.Mode)      (* Pin.Output, Pin.Input *)
| EvPinWrite (p : rpio.Pin) (s : rpio.State)    (* Pin.Write *)
| EvSpiEnd (dev : rpio.SpiDev)                  (* rpio.SpiEnd *)
| EvClose                                       (* rpio.Close *)
| EvSendCommand (cmd : Z)                       (* e.sendCommand *)
| EvSendData (data : list Z)                    (* e.sendData *)
| EvWait (ms : Z)                               (* wait *)
| EvWaitUntilIdle.                              (* e.waitUntilIdle *)

Inductive outcome (A : Type) : Type :=
| Returns (a : A)
| Panics (msg : string)
| Diverges.
Arguments Returns {A} a.
Arguments Panics {A} msg.
Arguments Diverges {A}.

Record run (A : Type) : Type := Run {
  result : outcome A;
  heap_after : Heap;
  emitted : list event
}.
Arguments Run {A}.
Arguments result {A}.
Arguments heap_after {A}.
Arguments emitted {A}.

Definition M (A : Type) : Type := Heap -> run A.

Definition ret {A} (a : A) : M A := fun h => Run (Returns a) h [].

Definition bind {A B} (m : M A) (k : A -> M B) : M B := fun h =>
  let r := m h in
  match result r with
  | Returns a =>
      let r' := k a (heap_after r) in
      Run (result r') (heap_after r') (emitted r ++ emitted r')
  | Panics msg => Run (Panics msg) (heap_after r) (emitted r)
  | Diverges => Run Diverges (heap_after r) (emitted r)
  end.

Declare Scope go_scope.
Delimit Scope go_scope with go.
Notation "x <- m ;; k" := (bind m (fun x => k))
  (at level 100, m at next level, right associativity) : go_scope.
Notation "m ;; k" := (bind m (fun _ => k))
  (at level 100, right associativity) : go_scope.
Local Open Scope go_scope.

Definition emit (ev : event) : M unit := fun h => Run (Returns tt) h [ev].
Definition panic {A} (msg : string) : M A := fun h => Run (Panics msg) h [].
Definition diverge {A} : M A := fun h => Run Diverges h [].

(** Dereferencing a [*Epd]. *)
Definition load (e : option loc) : M Epd := fun h =>
  match e with
  | Some l =>
      match h !! l with
      | Some d => Run (Returns d) h []
      | None => Run (Panics "invalid memory address") h []
      end
  | None => Run (Panics "nil pointer dereference") h []
  end.

(** [&Epd{...}]: a fresh cell. *)
Definition alloc (d : Epd) : M (option loc) := fun h =>
  let l := fresh (dom h) in
  Run (Returns (Some l)) (<[l := d]> h) [].

(** [for i := lo; cond i; i = next i { s = body i s }].  The fuel bounds the
    number of iterations; running out of it with the condition still true is
    divergence. *)
Fixpoint for_loop {S} (fuel : nat) (cond : Z -> bool) (next : Z -> Z)
    (body : Z -> S -> M S) (i : Z) (s : S) : M S :=
  if cond i then
    match fuel with
    | O => diverge
    | Datatypes.S fuel' =>
        s' <- body i s ;; for_loop fuel' cond next body (next i) s'
    end
  else ret s.

(** [for i := lo; i < hi; i += step]: with a positive step the loop leaves
    after at most [hi - lo] iterations. *)
Definition for_step {S} (lo hi step : Z) (body : Z -> S -> M S) (s : S) : M S :=
  for_loop (Z.to_nat (hi - lo)) (fun i => i <? hi) (fun i => i + step) body lo s.

(** [for i := lo; i < hi; i++] *)
Definition for_lt {S} (lo hi : Z) (body : Z -> S -> M S) (s : S) : M S :=
  for_step lo hi 1 body s.

(** [make([]byte, n)] *)
Definition make_bytes (n : Z) : M (list Z) :=
  if n <? 0 then panic "makeslice: len out of range"
  else ret (replicate (Z.to_nat n) 0).

(** [a[i] = v] on a slice: Go checks the index. *)
Definition index_set (a : list Z) (i : Z) (v : Z) : M (list Z) :=
  if (0 <=? i) && (i <? Z.of_nat (length a))
  then ret (<[Z.to_nat i := v]> a)
  else panic "index out of range".

Definition println (msg : string) : M unit := emit (EvLog msg).

(** The helpers below belong to the package but not to driver.go.  The driver
    is verified up to its calls of them: each call is one event, in the order
    the driver makes it. *)

(** Modelled from the spec: [wait] is not in driver.go; it blocks the caller
    for the given number of milliseconds and touches neither line nor bus. *)
Definition wait (ms : Z) : M unit := emit (EvWait ms).

(** Modelled from the spec: [waitUntilIdle] is not in driver.go; it polls the
    busy line until the panel reports idle and then returns.  A panel that
    never reports idle is outside the model. *)
Definition waitUntilIdle (e : option loc) : M unit := emit EvWaitUntilIdle.

(** Modelled from the spec: [sendCommand] is not in driver.go; it is one
    command transaction of exactly one byte. *)
Definition sendCommand (e : option loc) (cmd : Z) : M unit := emit (EvSendCommand cmd).

(** Modelled from the spec: [sendData] is not in driver.go; it is one data
    transaction that carries the whole slice and leaves it unchanged. *)
Definition sendData (e : option loc) (data : list Z) : M unit := emit (EvSendData data).

(** Modelled from the spec: [sendCommandWithData] is not in driver.go; it is
    [sendCommand] followed by [sendData], two transactions. *)
Definition sendCommandWithData (e : option loc) (cmd : Z) (data : list Z) : M unit :=
  sendCommand e cmd ;; sendData e data.

(** [Pin.Write], [Pin.Output], [Pin.Input] *)
Definition Pin_Write (p : rpio.Pin) (s : rpio.State) : M unit := emit (EvPinWrite p s).
Definition Pin_Output (p : rpio.Pin) : M unit := emit (EvPinMode p rpio.Output).
Definition Pin_Input (p : rpio.Pin) : M unit := emit (EvPinMode p rpio.Input).

(** [rpio.Open] and [rpio.SpiBegin] answer with an error or nil; the answer is
    the host's, so it is an input of the model. *)
Definition error : Type := string.
Definition rpio_Open (answer : option error) : M (option error) :=
  emit EvOpen ;; ret answer.
Definition rpio_SpiBegin (dev : rpio.SpiDev) (answer : option error) : M (option error) :=
  emit (EvSpiBegin dev) ;; ret answer.

(** [emits m a evs]: from any heap, [m] returns [a], leaves the heap as it
    found it and emits exactly [evs]. *)
Definition emits {A} (m : M A) (a : A) (evs : list event) : Prop :=
  forall h, m h = Run (Returns a) h evs.

(** [preserves m]: whatever [m] does, it leaves every [Epd] of the heap as it
    found it. *)
Definition preserves {A} (m : M A) : Prop :=
  forall h, heap_after (m h) = h.

(** [panics m msg evs]: from any heap, [m] panics with [msg], leaves the heap
    as it found it and has emitted exactly [evs] by then. *)
Definition panics {A} (m : M A) (msg : string) (evs : list event) : Prop :=
  forall h, m h = Run (Panics msg) h evs.

(** The constants of the package are declared outside driver.go; the driver
    is read for any value of them. *)
Class Constants : Type := {
  EPD_WIDTH : Z;
  EPD_HEIGHT : Z;
  PIXEL_SIZE : Z;
  POWER_OFF : Z;
  DEEP_SLEEP : Z
}.

(** [color.Color] is an interface; the driver only hands a colour to
    [isBlack], which judges it by its darkness. *)
Class Darkness (Color : Type) : Type := darkness : Color -> Z.

Section Driver.

Context {K : Constants} {Color : Type} {D : Darkness Color}.

(** An [image.Image], seen through its [At] method. *)
Definition Image : Type := Z -> Z -> Color.

(** Modelled from the spec: [isBlack] is not in driver.go; a pixel is
    classified black when its darkness is at or above the threshold. *)
Definition isBlack (c : Color) (threshold : Z) : bool := threshold <=? darkness c.

(** The struct that [New] builds. *)
Definition new_epd : Epd :=
  let dc := 25 in
  let cs := 8 in
  let rst := 17 in
  let busy := 24 in
  let bounds := image.Rect 0 0 EPD_WIDTH EPD_HEIGHT in
  let pixelWidth := EPD_WIDTH `quot` PIXEL_SIZE in
  let bufferSize := pixelWidth * EPD_HEIGHT in
  {| dc := dc; cs := cs; rst := rst; busy := busy;
     bounds := bounds; bufferSize := bufferSize; pixelWidth := pixelWidth |}.

Definition New (open_answer spi_answer : option error) : M (option loc * option error) :=
  err <- rpio_Open open_answer ;;
  match err with
  | Some err => ret (None, Some err)
  | None =>
      err <- rpio_SpiBegin rpio.Spi0 spi_answer ;;
      match err with
      | Some err => ret (None, Some err)
      | None =>
          emit (EvSpiChipSelect 0) ;;
          Pin_Output (dc new_epd) ;;
          Pin_Output (cs new_epd) ;;
          Pin_Output (rst new_epd) ;;
          Pin_Input (busy new_epd) ;;
          d <- alloc new_epd ;;
          ret (d, None)
      end
  end.

Definition reset (e : option loc) : M unit :=
  println "Resetting display" ;;
  d <- load e ;;
  Pin_Write (rst d) rpio.High ;;
  wait 20 ;;
  d <- load e ;;
  Pin_Write (rst d) rpio.Low ;;
  wait 2 ;;
  d <- load e ;;
  Pin_Write (rst d) rpio.High ;;
  wait 20 ;;
  println "Display reset".

(** Powers on the screen after power off or sleep. *)
Definition Init (e : option loc) : M unit :=
  println "Initializing display" ;;
  reset e ;;
  sendCommandWithData e 0x01 (* POWER_SETTING *)
    [ 0x07;
      0x07;  (* VGH=20V,VGL=-20V *)
      0x3f;  (* VDH=15v *)
      0x3f   (* VDL=-15v *) ] ;;
  sendCommandWithData e 0x06 (* BOOSTER_SOFT_START *)
    [ 0x17; 0x17; 0x28; 0x17 ] ;;
  sendCommand e 0x04 (* POWER_ON *) ;;
  wait 100 ;;
  waitUntilIdle e ;;
  sendCommandWithData e 0x00 (* PANEL_SETTING *)
    [ 0x1F ] ;;
  sendCommandWithData e 0x61 (* tres *)
    [ 0x03;  (* source 800 *)
      0x20;
      0x01;  (* gate 480 *)
      0xE0 ] ;;
  sendCommandWithData e 0x15 [ 0x00 ] ;;
  sendCommandWithData e 0x50 (* VCOM AND DATA INTERVAL SETTING *)
    [ 0x10; 0x17 ] ;;
  sendCommandWithData e 0x52 [ 0x03 ] ;;
  sendCommandWithData e 0x60 (* TCON SETTING *) [ 0x22 ] ;;
  println "Display initialized".

(** Returns the current screen bounds. *)
Definition Bounds (e : option loc) : M image.Rectangle :=
  d <- load e ;;
  ret (bounds d).

(** The byte of the [PIXEL_SIZE] pixels that start at [(x, y)]: the loop over
    [px] of [getBuffer]. *)
Definition pack_pixels (img : Image) (threshold : Z) (x y : Z) : M Z :=
  for_lt 0 PIXEL_SIZE (fun px pixel =>
    if isBlack (img (x + px) y) threshold
    then ret (Z.lor pixel (Z.shiftr 0x80 px))
    else ret pixel) 0x00.

(** Converts an image into a buffer ready to be sent to the display. *)
Definition getBuffer (e : option loc) (img : Image) (threshold : Z) : M (list Z) :=
  println "Getting buffer" ;;
  d <- load e ;;
  buffer <- make_bytes (bufferSize d) ;;
  buffer <-
    for_lt 0 (image.Dy (bounds d)) (fun y buffer =>
      for_step 0 (image.Dx (bounds d)) PIXEL_SIZE (fun x buffer =>
        pixel <- pack_pixels img threshold x y ;;
        index_set buffer (y * pixelWidth d + x `quot` PIXEL_SIZE) pixel)
      buffer)
    buffer ;;
  println "Buffer ready" ;;
  ret buffer.

Definition turnOnDisplay (e : option loc) : M unit :=
  println "Turning on display" ;;
  sendCommand e 0x12 ;;
  wait 100 ;;
  waitUntilIdle e ;;
  println "Display turned on".

Definition display (e : option loc) (buffer : list Z) : M unit :=
  println "Displaying buffer" ;;
  sendCommand e 0x10 ;;
  sendData e buffer ;;
  sendCommand e 0x13 ;;
  sendData e buffer ;;
  turnOnDisplay e ;;
  println "Buffer displayed".

(** Allows to easily send an image directly to the screen. *)
Definition DisplayImage (e : option loc) (img : Image) : M unit :=
  println "Displaying image" ;;
  buffer <- getBuffer e img 199 ;;
  display e buffer ;;
  println "Image displayed".

(** Clear the buffer and updates the screen right away. *)
Definition Clear (e : option loc) : M unit :=
  println "Clearing display" ;;
  let w :=
    if EPD_WIDTH `rem` PIXEL_SIZE =? 0
    then EPD_WIDTH `quot` PIXEL_SIZE
    else EPD_WIDTH `quot` PIXEL_SIZE + 1 in
  let h := EPD_HEIGHT in
  img <- make_bytes (EPD_WIDTH `quot` 8) ;;
  sendCommand e 0x10 ;;
  img <- for_lt 0 w (fun i img => index_set img i 0xFF) img ;;
  for_lt 0 h (fun _ _ => sendData e img) tt ;;
  sendCommand e 0x13 ;;
  img <- for_lt 0 w (fun i img => index_set img i 0x00) img ;;
  for_lt 0 h (fun _ _ => sendData e img) tt ;;
  turnOnDisplay e ;;
  println "Display cleared".

(** Puts the display to sleep and powers off. *)
Definition Sleep (e : option loc) : M unit :=
  println "Putting display to sleep" ;;
  sendCommand e POWER_OFF ;;
  waitUntilIdle e ;;
  sendCommandWithData e DEEP_SLEEP [ 0xa5 ] ;;
  wait 2000 ;;
  println "Display is asleep".

(** Powers off the display and closes the SPI connection. *)
Definition Close (e : option loc) : M unit :=
  println "Closing display" ;;
  d <- load e ;;
  Pin_Write (cs d) rpio.Low ;;
  d <- load e ;;
  Pin_Write (dc d) rpio.Low ;;
  d <- load e ;;
  Pin_Write (rst d) rpio.Low ;;
  emit (EvSpiEnd rpio.Spi0) ;;
  emit EvClose ;;
  println "Display closed".

(** The methods of a driver, as a caller can invoke them one after another. *)
Inductive operation : Type :=
| OpInit
| OpBounds
| OpGetBuffer (img : Image) (threshold : Z)
| OpDisplay (buffer : list Z)
| OpDisplayImage (img : Image)
| OpClear
| OpSleep
| OpClose
| OpReset.

Definition run_operation (e : option loc) (op : operation) : M unit :=
  match op with
  | OpInit => Init e
  | OpBounds => Bounds e ;; ret tt
  | OpGetBuffer img threshold => getBuffer e img threshold ;; ret tt
  | OpDisplay buffer => display e buffer
  | OpDisplayImage img => DisplayImage e img
  | OpClear => Clear e
  | OpSleep => Sleep e
  | OpClose => Close e
  | OpReset => reset e
  end.

Fixpoint run_operations (e : option loc) (ops : list operation) : M unit :=
  match ops with
  | [] => ret tt
  | op :: ops => run_operation e op ;; run_operations e ops
  end.

(** The events that are not log lines. *)
Definition is_log (ev : event) : bool :=
  match ev with EvLog _ => true | _ => false end.
Definition panel_io (evs : list event) : list event :=
  List.filter (fun ev => negb (is_log ev)) evs.

(** Events that touch the panel: a transaction on the bus or a level driven on
    one of its lines. *)
Definition touches_panel (ev : event) : bool :=
  match ev with
  | EvSendCommand _ | EvSendData _ | EvPinWrite _ _ => true
  | _ => false
  end.

(** The payloads of the data transactions, in order. *)
Definition data_writes (evs : list event) : list (list Z) :=
  omap (fun ev => match ev with EvSendData d => Some d | _ => None end) evs.

(** ** Closed forms used by the theorems *)

(** The byte that the loop over [px] of [getBuffer] has built after [k]
    pixels of the group that starts at [(x, y)]. *)
Fixpoint packed_byte (img : Image) (threshold x y : Z) (k : nat) : Z :=
  match k with
  | O => 0x00
  | Datatypes.S k' =>
      let pixel := packed_byte img threshold x y k' in
      if isBlack (img (x + Z.of_nat k') y) threshold
      then Z.lor pixel (Z.shiftr 0x80 (Z.of_nat k'))
      else pixel
  end.

(** Bytes per packed row. *)
Definition row_bytes : Z := EPD_WIDTH `quot` PIXEL_SIZE.

(** The byte at index [i] of the packed buffer: row [i / row_bytes], group
    [i mod row_bytes]. *)
Definition byte_at (img : Image) (threshold : Z) (i : Z) : Z :=
  packed_byte img threshold ((i `mod` row_bytes) * PIXEL_SIZE) (i `div` row_bytes)
    (Z.to_nat PIXEL_SIZE).

Definition packed_buffer (img : Image) (threshold : Z) : list Z :=
  byte_at img threshold <$> seqZ 0 (row_bytes * EPD_HEIGHT).

(** [filled buffer n]: the buffer has its final length and its first [n]
    bytes are the packed ones. *)
Definition filled (img : Image) (threshold : Z) (buffer : list Z) (n : Z) : Prop :=
  Z.of_nat (length buffer) = row_bytes * EPD_HEIGHT /\
  forall i, 0 <= i < n -> buffer !! Z.to_nat i = Some (byte_at img threshold i).

(** Values of a Go [int] on a 32-bit platform. *)
Definition fits_int (z : Z) : Prop := - 2 ^ 31 <= z < 2 ^ 31.

(** The geometry the image path is written for: a positive group size, a
    width that is a whole number of groups, and sizes that an [int] holds. *)
Definition native_geometry : Prop :=
  0 < PIXEL_SIZE /\
  0 <= EPD_WIDTH /\ 0 <= EPD_HEIGHT /\
  EPD_WIDTH `rem` PIXEL_SIZE = 0 /\
  fits_int EPD_WIDTH /\ fits_int EPD_HEIGHT /\
  fits_int (EPD_WIDTH * EPD_HEIGHT).

(** The resolution setting of the panel controller: horizontal then vertical
    resolution, two bytes each, high byte first. *)
Definition resolution_payload (w h : Z) : list Z :=
  [ w `quot` 256; w `rem` 256; h `quot` 256; h `rem` 256 ].

(** [ceil(a / b)] for positive [b]. *)
Definition ceil_div (a b : Z) : Z := (a + b - 1) `div` b.

(** [quiet m]: however [m] ends, it has emitted nothing but log lines. *)
Definition quiet {A} (m : M A) : Prop :=
  forall h, panel_io (emitted (m h)) = [].

(** What every byte of a packed buffer is: a value of a [byte] whose bits
    below the [PIXEL_SIZE] most significant ones are clear. *)
Definition group_byte (b : Z) : Prop :=
  0 <= b < 256 /\
  forall i, 0 <= i < 8 - PIXEL_SIZE -> Z.testbit b i = false.

(** A geometry whose width is not a whole number of groups. *)
Definition ragged_geometry : Prop :=
  0 < PIXEL_SIZE /\
  0 <= EPD_WIDTH /\ 0 < EPD_HEIGHT /\
  EPD_WIDTH `rem` PIXEL_SIZE <> 0 /\
  fits_int (EPD_WIDTH + PIXEL_SIZE) /\ fits_int EPD_HEIGHT /\
  fits_int (EPD_WIDTH * EPD_HEIGHT).

(** The [w] of [Clear]: the bytes it fills in its buffer. *)
Definition clear_width : Z :=
  if EPD_WIDTH `rem` PIXEL_SIZE =? 0
  then EPD_WIDTH `quot` PIXEL_SIZE
  else EPD_WIDTH `quot` PIXEL_SIZE + 1.

End Driver.

(** ** The panel of the package: 800 x 480, eight pixels per byte *)

(** The width and height are the ones [Init]'s resolution setting names
    (source 800, gate 480), the group size the one [getBuffer]'s comment names
    (the next 8 pixels); the two opcodes are the controller's. *)
Definition waveshare_panel : Constants :=
  {| EPD_WIDTH := 800; EPD_HEIGHT := 480; PIXEL_SIZE := 8;
     POWER_OFF := 0x02; DEEP_SLEEP := 0x07 |}.

(** A small panel of two rows of two bytes, to run the driver on. *)
Definition small_panel : Constants :=
  {| EPD_WIDTH := 16; EPD_HEIGHT := 2; PIXEL_SIZE := 8;
     POWER_OFF := 0x02; DEEP_SLEEP := 0x07 |}.

(** A panel whose width of 12 is not a whole number of groups of 8. *)
Definition ragged_panel : Constants :=
  {| EPD_WIDTH := 12; EPD_HEIGHT := 2; PIXEL_SIZE := 8;
     POWER_OFF := 0x02; DEEP_SLEEP := 0x07 |}.

(** Colours given by their darkness, from 0 (white) to 255 (black). *)
Definition gray_darkness : Darkness Z := fun c => c.

(** A heap with one driver of the panel [K], as [New] leaves it. *)
Definition one_driver (K : Constants) : Heap := {[ O := @new_epd K ]}.

(** A white image with a black vertical stripe at column [k]. *)
Definition stripe (k : Z) : Z -> Z -> Z := fun x y => if x =? k then 255 else 0.
Definition all_white : Z -> Z -> Z := fun _ _ => 0.
Definition all_black : Z -> Z -> Z := fun _ _ => 255.

(** The stripe image, black everywhere to the right of the 800 columns. *)
Definition stripe_beyond (k : Z) : Z -> Z -> Z :=
  fun x y => if 800 <=? x then 255 else stripe k x y.

(** ** Running straight-line code *)

Lemma run_eta {A} (r : run A) : Run (result r) (heap_after r) (emitted r) = r.
Proof. by destruct r. Qed.

Lemma emits_ret {A} (a : A) : emits (ret a) a [].
Proof. done. Qed.

Lemma emits_emit ev : emits (emit ev) tt [ev].
Proof. done. Qed.

Lemma emits_bind {A B} (m : M A) (k : A -> M B) a evs b evs' :
  emits m a evs -> emits (k a) b evs' -> emits (bind m k) b (evs ++ evs').
Proof. intros Hm Hk h. unfold bind. cbv zeta. rewrite !(Hm h). simpl. by rewrite !(Hk h). Qed.

Lemma bind_emits_run {A B} (m : M A) (k : A -> M B) a evs h :
  emits m a evs ->
  bind m k h = Run (result (k a h)) (heap_after (k a h)) (evs ++ emitted (k a h)).
Proof. intros Hm. unfold bind. cbv zeta. by rewrite !(Hm h). Qed.

Lemma bind_load {B} (k : Epd -> M B) l d h :
  h !! l = Some d -> bind (load (Some l)) k h = k d h.
Proof. intros Hl. unfold bind, load. rewrite Hl. simpl. apply run_eta. Qed.

Lemma bind_emit {B} (k : unit -> M B) ev h :
  bind (emit ev) k h = Run (result (k tt h)) (heap_after (k tt h)) (ev :: emitted (k tt h)).
Proof. done. Qed.

Lemma bind_returns {A B} (m : M A) (k : A -> M B) a evs h h1 :
  m h = Run (Returns a) h1 evs ->
  bind m k h = Run (result (k a h1)) (heap_after (k a h1)) (evs ++ emitted (k a h1)).
Proof. intros Hm. unfold bind. cbv zeta. by rewrite !Hm. Qed.

(** Unfolds the calls of the helpers down to [emit]. *)
Ltac to_emits :=
  unfold sendCommandWithData, sendCommand, sendData, wait, waitUntilIdle,
    Pin_Write, Pin_Output, Pin_Input, println, rpio_Open, rpio_SpiBegin.

(** Runs a straight-line body: every [load] finds the driver [Hl] names. *)
Ltac run_line Hl :=
  to_emits; cbv [bind load emit ret result heap_after emitted];
  rewrite ?Hl; cbv [result heap_after emitted app].

(** ** Loops *)

(** The invariant rule of the three-clause loop.  [n] is the number of
    iterations; [I k s evs] holds before iteration [k] of a loop that has
    emitted [evs] so far and whose variables are [s]. *)
Lemma for_loop_emits {S} (I : nat -> S -> list event -> Prop) (lo hi step : Z)
    (body : Z -> S -> M S) (n : nat) :
  (forall j : nat, (j < n)%nat -> lo + Z.of_nat j * step < hi) ->
  hi <= lo + Z.of_nat n * step ->
  (forall (k : nat) s evs, (k < n)%nat -> I k s evs ->
     exists s' evs',
       emits (body (lo + Z.of_nat k * step) s) s' evs' /\ I (Datatypes.S k) s' (evs ++ evs')) ->
  forall (fuel k : nat) s evs,
    (k <= n)%nat -> (n - k <= fuel)%nat -> I k s evs ->
    exists s' evs',
      emits (for_loop fuel (fun i => i <? hi) (fun i => i + step) body (lo + Z.of_nat k * step) s)
        s' evs'
      /\ I n s' (evs ++ evs').
Proof.
  intros Hin Hout Hbody. induction fuel as [|fuel IH]; intros k s evs Hk Hfuel HI.
  - assert (k = n) as -> by lia. exists s, []. simpl.
    rewrite (proj2 (Z.ltb_ge _ _)) by lia. split; [apply emits_ret|].
    by rewrite app_nil_r.
  - destruct (decide (k = n)) as [->|Hne].
    + exists s, []. simpl. rewrite (proj2 (Z.ltb_ge _ _)) by lia.
      split; [apply emits_ret|]. by rewrite app_nil_r.
    + assert (k < n)%nat as Hlt by lia.
      destruct (Hbody k s evs Hlt HI) as (s1 & evs1 & Hrun & HI1).
      destruct (IH (Datatypes.S k) s1 (evs ++ evs1)) as (s2 & evs2 & Hrest & HI2);
        [lia | lia | done |].
      exists s2, (evs1 ++ evs2). simpl.
      rewrite (proj2 (Z.ltb_lt _ _)) by (apply Hin; lia). split.
      * eapply emits_bind; [exact Hrun|].
        replace (lo + Z.of_nat k * step + step) with (lo + Z.of_nat (Datatypes.S k) * step) by lia.
        exact Hrest.
      * by rewrite app_assoc.
Qed.

Lemma for_step_emits {S} (I : nat -> S -> list event -> Prop) (lo hi step : Z)
    (body : Z -> S -> M S) (n : nat) (s0 : S) :
  0 < step ->
  (forall j : nat, (j < n)%nat -> lo + Z.of_nat j * step < hi) ->
  hi <= lo + Z.of_nat n * step ->
  (forall (k : nat) s evs, (k < n)%nat -> I k s evs ->
     exists s' evs',
       emits (body (lo + Z.of_nat k * step) s) s' evs' /\ I (Datatypes.S k) s' (evs ++ evs')) ->
  I O s0 [] ->
  exists s' evs, emits (for_step lo hi step body s0) s' evs /\ I n s' evs.
Proof.
  intros Hstep Hin Hout Hbody HI0. unfold for_step.
  assert (n <= Z.to_nat (hi - lo))%nat as Hfuel.
  { destruct n as [|n]; [lia|]. specialize (Hin n). nia. }
  destruct (for_loop_emits I lo hi step body n Hin Hout Hbody
              (Z.to_nat (hi - lo)) O s0 []) as (s' & evs & Hrun & HI);
    [lia | lia | done |].
  exists s', evs. split; [|done].
  by replace lo with (lo + Z.of_nat O * step) at 2 by lia.
Qed.

Lemma for_lt_emits {S} (I : nat -> S -> list event -> Prop) (hi : Z)
    (body : Z -> S -> M S) (s0 : S) :
  (forall (k : nat) s evs, (k < Z.to_nat hi)%nat -> I k s evs ->
     exists s' evs',
       emits (body (Z.of_nat k) s) s' evs' /\ I (Datatypes.S k) s' (evs ++ evs')) ->
  I O s0 [] ->
  exists s' evs, emits (for_lt 0 hi body s0) s' evs /\ I (Z.to_nat hi) s' evs.
Proof.
  intros Hbody HI0. unfold for_lt.
  apply for_step_emits; [lia | lia | lia | | done].
  intros k s evs Hk HI. replace (0 + Z.of_nat k * 1) with (Z.of_nat k) by lia. eauto.
Qed.

(** A loop whose body only emits the same events each time. *)
Lemma for_lt_repeat (hi : Z) (evs : list event) (body : Z -> unit -> M unit) :
  (forall i, emits (body i tt) tt evs) ->
  emits (for_lt 0 hi body tt) tt (mjoin (replicate (Z.to_nat hi) evs)).
Proof.
  intros Hbody.
  destruct (for_lt_emits
              (fun k (_ : unit) out => out = mjoin (replicate k evs)) hi body tt)
    as ([] & out & Hrun & ->); [|done|done].
  intros k [] out _ ->. exists tt, evs. split; [apply Hbody|].
  induction k as [|k IH]; simpl; [by rewrite app_nil_r|].
  by rewrite <- app_assoc, IH.
Qed.

Lemma mjoin_replicate_singleton {A} (n : nat) (x : A) :
  mjoin (replicate n [x]) = replicate n x.
Proof. induction n as [|n IH]; simpl; [done | by rewrite IH]. Qed.

Lemma filter_replicate_keep {A} (f : A -> bool) (n : nat) (x : A) :
  f x = true -> List.filter f (replicate n x) = replicate n x.
Proof. intros Hx. induction n as [|n IH]; simpl; [done | by rewrite Hx, IH]. Qed.

(** [for i := 0; i < w; i++ { img[i] = v }] on a slice that is long enough. *)
Lemma fill_emits (img : list Z) (v w : Z) :
  0 <= w <= Z.of_nat (length img) ->
  emits (for_lt 0 w (fun i img => index_set img i v) img)
    (replicate (Z.to_nat w) v ++ drop (Z.to_nat w) img) [].
Proof.
  intros Hw.
  destruct (for_lt_emits
    (fun k img' evs => evs = [] /\ img' = replicate k v ++ drop k img)
    w (fun i img => index_set img i v) img)
    as (img' & evs & Hrun & -> & ->); [| done | done].
  intros k img' evs Hk [-> ->].
  exists (replicate (Datatypes.S k) v ++ drop (Datatypes.S k) img), [].
  split; [|done]. unfold index_set.
  rewrite length_app, length_replicate, length_drop.
  rewrite (proj2 (Z.leb_le _ _)), (proj2 (Z.ltb_lt _ _)) by lia. simpl andb. cbv iota.
  rewrite Nat2Z.id, insert_app_r_alt by (rewrite length_replicate; lia).
  rewrite length_replicate, Nat.sub_diag.
  destruct (lookup_lt_is_Some_2 img k) as [y Hy]; [lia|].
  rewrite (drop_S _ _ _ Hy), replicate_S_end, <- app_assoc. apply emits_ret.
Qed.

(** ** Code that does not write the heap *)

Lemma preserves_ret {A} (a : A) : preserves (ret a).
Proof. done. Qed.

Lemma preserves_emit ev : preserves (emit ev).
Proof. done. Qed.

Lemma preserves_panic {A} msg : preserves (@panic A msg).
Proof. done. Qed.

Lemma preserves_load e : preserves (load e).
Proof. intros h. unfold load. destruct e as [l|]; [destruct (h !! l)|]; done. Qed.

Lemma preserves_bind {A B} (m : M A) (k : A -> M B) :
  preserves m -> (forall a, preserves (k a)) -> preserves (bind m k).
Proof.
  intros Hm Hk h. unfold bind. cbv zeta.
  destruct (result (m h)) as [a| |]; simpl; [|apply Hm..].
  by rewrite (Hm h), (Hk a h).
Qed.

Lemma preserves_for_loop {S} fuel cond next (body : Z -> S -> M S) i s :
  (forall i s, preserves (body i s)) ->
  preserves (for_loop fuel cond next body i s).
Proof.
  intros Hbody. revert i s. induction fuel as [|fuel IH]; intros i s; simpl.
  - by destruct (cond i).
  - destruct (cond i); [|done]. apply preserves_bind; [apply Hbody | intros; apply IH].
Qed.

Lemma preserves_make_bytes n : preserves (make_bytes n).
Proof. unfold make_bytes. by destruct (n <? 0). Qed.

Lemma preserves_index_set a i v : preserves (index_set a i v).
Proof. unfold index_set. by destruct ((0 <=? i) && (i <? Z.of_nat (length a))). Qed.

(** Splits a body into its calls and closes each of them. *)
Ltac preserve :=
  to_emits; unfold for_lt, for_step;
  repeat first
    [ apply preserves_emit | apply preserves_ret | apply preserves_load
    | apply preserves_make_bytes | apply preserves_index_set
    | apply preserves_bind; [|intros]
    | apply preserves_for_loop; intros
    | match goal with |- preserves (if ?b then _ else _) => destruct b end ].

Section DriverFacts.

Context {K : Constants} {Color : Type} {D : Darkness Color}.

Lemma reset_run l d h :
  h !! l = Some d ->
  reset (Some l) h =
    Run (Returns tt) h
      [ EvLog "Resetting display";
        EvPinWrite (rst d) rpio.High; EvWait 20;
        EvPinWrite (rst d) rpio.Low; EvWait 2;
        EvPinWrite (rst d) rpio.High; EvWait 20;
        EvLog "Display reset" ].
Proof. intros Hl. unfold reset. run_line Hl. reflexivity. Qed.

(** *** The packed buffer *)

Lemma new_epd_bounds :
  0 <= EPD_WIDTH -> 0 <= EPD_HEIGHT ->
  image.Dx (bounds new_epd) = EPD_WIDTH /\ image.Dy (bounds new_epd) = EPD_HEIGHT.
Proof.
  intros HW HH. unfold new_epd, image.Rect, image.Dx, image.Dy. simpl.
  rewrite (proj2 (Z.ltb_ge EPD_WIDTH 0)), (proj2 (Z.ltb_ge EPD_HEIGHT 0)) by lia.
  simpl. lia.
Qed.

Lemma row_bytes_spec :
  native_geometry ->
  0 <= row_bytes /\ row_bytes * PIXEL_SIZE = EPD_WIDTH /\
  row_bytes = EPD_WIDTH `div` PIXEL_SIZE.
Proof.
  intros (HG & HW & HH & Hrem & _). unfold row_bytes.
  pose proof (Z.quot_rem' EPD_WIDTH PIXEL_SIZE) as Hqr. rewrite Hrem in Hqr.
  rewrite Z.quot_div_nonneg by lia.
  pose proof (Z.div_pos EPD_WIDTH PIXEL_SIZE). rewrite Z.quot_div_nonneg in Hqr by lia.
  lia.
Qed.

Lemma pack_pixels_emits (img : Image) threshold x y :
  emits (pack_pixels img threshold x y)
    (packed_byte img threshold x y (Z.to_nat PIXEL_SIZE)) [].
Proof.
  unfold pack_pixels.
  destruct (for_lt_emits
    (fun k pixel evs => evs = [] /\ pixel = packed_byte img threshold x y k)
    PIXEL_SIZE
    (fun px pixel =>
       if isBlack (img (x + px) y) threshold
       then ret (Z.lor pixel (Z.shiftr 0x80 px)) else ret pixel) 0x00)
    as (pixel & evs & Hrun & -> & ->); [| done | done].
  intros k pixel evs _ [-> ->]. simpl.
  destruct (isBlack (img (x + Z.of_nat k) y) threshold);
    eexists _, []; (split; [apply emits_ret | done]).
Qed.

Lemma byte_at_group (img : Image) threshold y k :
  0 <= k < row_bytes ->
  byte_at img threshold (y * row_bytes + k) =
    packed_byte img threshold (k * PIXEL_SIZE) y (Z.to_nat PIXEL_SIZE).
Proof.
  intros Hk. unfold byte_at.
  replace (y * row_bytes + k) with (k + y * row_bytes) by lia.
  rewrite Z.mod_add, Z.div_add by lia.
  by rewrite Z.mod_small, Z.div_small, Z.add_0_l by lia.
Qed.

(** The loop over [x] of one row. *)
Lemma pack_row_emits (img : Image) threshold y buffer :
  native_geometry ->
  0 <= y < EPD_HEIGHT ->
  filled img threshold buffer (y * row_bytes) ->
  exists buffer',
    emits
      (for_step 0 EPD_WIDTH PIXEL_SIZE (fun x buffer =>
         pixel <- pack_pixels img threshold x y ;;
         index_set buffer (y * row_bytes + x `quot` PIXEL_SIZE) pixel) buffer)
      buffer' []
    /\ filled img threshold buffer' ((y + 1) * row_bytes).
Proof.
  intros Hgeo Hy Hfill.
  destruct (row_bytes_spec Hgeo) as (Hrb0 & Hrb & _).
  destruct Hgeo as (HG & _).
  destruct (for_step_emits
    (fun k buffer evs => evs = [] /\
       filled img threshold buffer (y * row_bytes + Z.of_nat k))
    0 EPD_WIDTH PIXEL_SIZE
    (fun x buffer =>
       pixel <- pack_pixels img threshold x y ;;
       index_set buffer (y * row_bytes + x `quot` PIXEL_SIZE) pixel)
    (Z.to_nat row_bytes) buffer)
    as (buffer' & evs & Hrun & -> & Hfill'); [lia | nia | nia | | |].
  - intros k b evs Hk [-> [Hlen Hb]].
    set (i := y * row_bytes + Z.of_nat k).
    exists (<[Z.to_nat i := byte_at img threshold i]> b), []. split.
    + replace [] with (@nil event ++ []) by done.
      eapply emits_bind; [apply pack_pixels_emits|].
      rewrite Z.add_0_l, Z.quot_mul by lia. fold i.
      unfold index_set.
      rewrite (proj2 (Z.leb_le 0 i)), (proj2 (Z.ltb_lt i _)) by nia. simpl.
      rewrite <- (byte_at_group img threshold y (Z.of_nat k)) by lia. apply emits_ret.
    + split; [done|]. split; [by rewrite length_insert|].
      intros j Hj. destruct (decide (j = i)) as [->|Hne].
      * apply list_lookup_insert_eq. nia.
      * rewrite list_lookup_insert_ne by lia. apply Hb. lia.
  - split; [done|]. by rewrite Z.add_0_r.
  - exists buffer'. split; [done|].
    rewrite Z2Nat.id in Hfill' by lia.
    by replace ((y + 1) * row_bytes) with (y * row_bytes + row_bytes) by lia.
Qed.

(** The two nested loops fill the whole buffer. *)
Lemma pack_rows_emits (img : Image) threshold buffer :
  native_geometry ->
  Z.of_nat (length buffer) = row_bytes * EPD_HEIGHT ->
  exists buffer',
    emits
      (for_lt 0 EPD_HEIGHT (fun y buffer =>
         for_step 0 EPD_WIDTH PIXEL_SIZE (fun x buffer =>
           pixel <- pack_pixels img threshold x y ;;
           index_set buffer (y * row_bytes + x `quot` PIXEL_SIZE) pixel) buffer)
         buffer)
      buffer' []
    /\ filled img threshold buffer' (row_bytes * EPD_HEIGHT).
Proof.
  intros Hgeo Hlen.
  destruct (for_lt_emits
    (fun y buffer evs => evs = [] /\
       filled img threshold buffer (Z.of_nat y * row_bytes))
    EPD_HEIGHT
    (fun y buffer =>
       for_step 0 EPD_WIDTH PIXEL_SIZE (fun x buffer =>
         pixel <- pack_pixels img threshold x y ;;
         index_set buffer (y * row_bytes + x `quot` PIXEL_SIZE) pixel) buffer)
    buffer)
    as (buffer' & evs & Hrun & -> & Hfill').
  - intros y b evs Hy [-> Hb].
    destruct (pack_row_emits img threshold (Z.of_nat y) b Hgeo) as (b' & Hrun & Hb');
      [lia | done |].
    exists b', []. split; [done|]. split; [done|].
    by replace (Z.of_nat (Datatypes.S y)) with (Z.of_nat y + 1) by lia.
  - split; [done|]. split; [done|]. intros i Hi. lia.
  - exists buffer'. split; [done|].
    destruct Hgeo as (_ & _ & HH & _).
    rewrite Z2Nat.id in Hfill' by lia. by rewrite Z.mul_comm.
Qed.

Lemma filled_packed_buffer (img : Image) threshold buffer :
  0 <= row_bytes * EPD_HEIGHT ->
  filled img threshold buffer (row_bytes * EPD_HEIGHT) ->
  buffer = packed_buffer img threshold.
Proof.
  intros Hn [Hlen Hb]. apply list_eq. intros i. unfold packed_buffer.
  rewrite list_lookup_fmap.
  destruct (decide (Z.of_nat i < row_bytes * EPD_HEIGHT)) as [Hi|Hi].
  - rewrite lookup_seqZ_lt by done. simpl.
    rewrite <- (Nat2Z.id i) at 1. apply Hb. lia.
  - rewrite lookup_seqZ_ge by lia. simpl. apply lookup_ge_None. lia.
Qed.

(** What [getBuffer] does on a driver that [New] built. *)
Lemma getBuffer_run l h (img : Image) threshold :
  native_geometry ->
  h !! l = Some new_epd ->
  getBuffer (Some l) img threshold h =
    Run (Returns (packed_buffer img threshold)) h
      [ EvLog "Getting buffer"; EvLog "Buffer ready" ].
Proof.
  intros Hgeo Hl.
  destruct (row_bytes_spec Hgeo) as (Hrb0 & Hrb & _).
  pose proof Hgeo as (HG & HW & HH & _).
  destruct (new_epd_bounds HW HH) as [HDx HDy].
  unfold getBuffer, println. rewrite bind_emit, (bind_load _ l new_epd h Hl).
  rewrite HDx, HDy.
  change (bufferSize new_epd) with (row_bytes * EPD_HEIGHT).
  change (pixelWidth new_epd) with row_bytes.
  unfold make_bytes. rewrite (proj2 (Z.ltb_ge _ 0)) by nia.
  rewrite (bind_emits_run _ _ _ [] h (emits_ret _)).
  destruct (pack_rows_emits img threshold
              (replicate (Z.to_nat (row_bytes * EPD_HEIGHT)) 0) Hgeo)
    as (buffer & Hrun & Hfill); [rewrite length_replicate; nia|].
  rewrite (bind_emits_run _ _ _ [] h Hrun), bind_emit. simpl.
  by rewrite (filled_packed_buffer img threshold buffer) by (done || nia).
Qed.

Lemma packed_buffer_lookup (img : Image) threshold i :
  0 <= i < row_bytes * EPD_HEIGHT ->
  packed_buffer img threshold !! Z.to_nat i = Some (byte_at img threshold i).
Proof.
  intros Hi. unfold packed_buffer.
  rewrite list_lookup_fmap, lookup_seqZ_lt by lia. simpl. f_equal. f_equal. lia.
Qed.

Lemma packed_buffer_length (img : Image) threshold :
  0 <= row_bytes * EPD_HEIGHT ->
  Z.of_nat (length (packed_buffer img threshold)) = row_bytes * EPD_HEIGHT.
Proof. intros Hn. unfold packed_buffer. rewrite length_fmap, length_seqZ. lia. Qed.

(** Bit [i] of the byte of a group is set exactly when pixel [7 - i] of the
    group was visited and is black. *)
Lemma packed_byte_testbit (img : Image) threshold x y k i :
  0 <= i ->
  Z.testbit (packed_byte img threshold x y k) i =
    (7 - i <? Z.of_nat k) && (0 <=? 7 - i) && isBlack (img (x + (7 - i)) y) threshold.
Proof.
  intros Hi. induction k as [|k IH].
  - cbn [packed_byte]. change (Z.of_nat O) with 0. rewrite Z.bits_0.
    destruct (Z.ltb_spec (7 - i) 0), (Z.leb_spec 0 (7 - i)); try done; lia.
  - assert (Z.testbit (Z.shiftr 0x80 (Z.of_nat k)) i = (7 - i =? Z.of_nat k)) as Hbit.
    { rewrite Z.shiftr_spec by lia. change 0x80 with (2 ^ 7).
      rewrite Z.pow2_bits_eqb by lia.
      destruct (Z.eqb_spec 7 (i + Z.of_nat k)), (Z.eqb_spec (7 - i) (Z.of_nat k));
        try done; lia. }
    cbn [packed_byte].
    assert (Z.testbit
              (if isBlack (img (x + Z.of_nat k) y) threshold
               then Z.lor (packed_byte img threshold x y k) (Z.shiftr 0x80 (Z.of_nat k))
               else packed_byte img threshold x y k) i
            = Z.testbit (packed_byte img threshold x y k) i
              || (7 - i =? Z.of_nat k) && isBlack (img (x + Z.of_nat k) y) threshold)
      as ->.
    { destruct (isBlack (img (x + Z.of_nat k) y) threshold).
      - by rewrite Z.lor_spec, Hbit, andb_true_r.
      - by rewrite andb_false_r, orb_false_r. }
    rewrite IH.
    destruct (Z.eqb_spec (7 - i) (Z.of_nat k)) as [Heq|Hne].
    + rewrite Heq, Z.ltb_irrefl. simpl.
      rewrite (proj2 (Z.ltb_lt _ _)), (proj2 (Z.leb_le _ _)) by lia. done.
    + rewrite orb_false_r.
      destruct (Z.ltb_spec (7 - i) (Z.of_nat k)),
        (Z.ltb_spec (7 - i) (Z.of_nat (Datatypes.S k))); try done; lia.
Qed.

Lemma packed_buffer_pixel (img : Image) threshold x y :
  native_geometry -> PIXEL_SIZE <= 8 ->
  0 <= x < EPD_WIDTH -> 0 <= y < EPD_HEIGHT ->
  exists b,
    packed_buffer img threshold !! Z.to_nat (y * row_bytes + x `div` PIXEL_SIZE)
      = Some b /\
    Z.testbit b (7 - x `mod` PIXEL_SIZE) = isBlack (img x y) threshold.
Proof.
  intros Hgeo HG8 Hx Hy.
  destruct (row_bytes_spec Hgeo) as (Hrb0 & Hrb & Hdiv).
  pose proof Hgeo as (HG & HW & HH & _).
  pose proof (Z.mod_pos_bound x PIXEL_SIZE HG) as Hm.
  pose proof (Z.div_mod x PIXEL_SIZE) as Hdm.
  assert (0 <= x `div` PIXEL_SIZE < row_bytes) as Hq.
  { split; [apply Z.div_pos; lia|]. apply Z.div_lt_upper_bound; lia. }
  eexists. split; [apply packed_buffer_lookup; nia|].
  rewrite byte_at_group, packed_byte_testbit by lia.
  replace (7 - (7 - x `mod` PIXEL_SIZE)) with (x `mod` PIXEL_SIZE) by lia.
  rewrite (proj2 (Z.ltb_lt _ _)), (proj2 (Z.leb_le _ _)) by lia. simpl.
  do 3 f_equal. lia.
Qed.

(** The groups of an image of one colour. *)
Lemma packed_byte_white (img : Image) threshold x y k :
  (forall j, 0 <= j < Z.of_nat k -> isBlack (img (x + j) y) threshold = false) ->
  packed_byte img threshold x y k = 0x00.
Proof.
  induction k as [|k IH]; intros Hwhite; [done|]. cbn [packed_byte].
  rewrite Hwhite by lia. apply IH. intros j Hj. apply Hwhite. lia.
Qed.

Lemma packed_byte_black (img : Image) threshold x y :
  (forall j, 0 <= j < 8 -> isBlack (img (x + j) y) threshold = true) ->
  packed_byte img threshold x y 8 = 0xFF.
Proof.
  intros Hblack. apply Z.bits_inj'. intros i Hi.
  rewrite packed_byte_testbit by done. change 0xFF with (Z.ones 8).
  rewrite Z.testbit_ones by lia. change (Z.of_nat 8) with 8.
  destruct (Z.ltb_spec (7 - i) 8), (Z.leb_spec 0 (7 - i)), (Z.leb_spec 0 i),
    (Z.ltb_spec i 8); cbn [andb]; try done; try lia.
  apply Hblack. lia.
Qed.

Lemma fmap_seqZ_const (f : Z -> Z) (n v : Z) :
  (forall i, 0 <= i < n -> f i = v) ->
  f <$> seqZ 0 n = replicate (Z.to_nat n) v.
Proof.
  intros Hf. apply list_eq. intros i. rewrite list_lookup_fmap.
  destruct (decide (Z.of_nat i < n)) as [Hi|Hi].
  - rewrite lookup_seqZ_lt by done. simpl. rewrite Hf by lia.
    symmetry. apply lookup_replicate_2. lia.
  - rewrite lookup_seqZ_ge by lia. simpl. symmetry.
    apply lookup_ge_None. rewrite length_replicate. lia.
Qed.

(** The pixels that the byte at index [i] covers lie on the panel. *)
Lemma group_in_panel i j :
  native_geometry ->
  0 <= i < row_bytes * EPD_HEIGHT -> 0 <= j < PIXEL_SIZE ->
  0 <= (i `mod` row_bytes) * PIXEL_SIZE + j < EPD_WIDTH /\
  0 <= i `div` row_bytes < EPD_HEIGHT.
Proof.
  intros Hgeo Hi Hj.
  destruct (row_bytes_spec Hgeo) as (Hrb0 & Hrb & Hdiv).
  pose proof Hgeo as (HG & HW & HH & _).
  assert (0 < row_bytes) as Hpos by nia.
  pose proof (Z.mod_pos_bound i row_bytes Hpos) as Hm.
  split; [nia|]. split; [apply Z.div_pos; lia|].
  apply Z.div_lt_upper_bound; lia.
Qed.

(** C1. On a driver built by [New], for a geometry of whole groups of at most
    eight pixels, [getBuffer] returns a buffer in which pixel [(x, y)] is bit
    [x mod G] counted from the most significant bit of the byte at index
    [y * (W / G) + x / G], and that bit is set exactly when [isBlack] holds of
    the pixel; a group that is white except for one black pixel at offset [k]
    gives the byte [0x80 >> k]. *)
Theorem getBuffer_pixel_bit l h (img : Image) threshold :
  native_geometry -> PIXEL_SIZE <= 8 -> h !! l = Some new_epd ->
  exists buffer,
    result (getBuffer (Some l) img threshold h) = Returns buffer /\
    (forall x y, 0 <= x < EPD_WIDTH -> 0 <= y < EPD_HEIGHT ->
       exists b,
         buffer !! Z.to_nat (y * (EPD_WIDTH `div` PIXEL_SIZE) + x `div` PIXEL_SIZE)
           = Some b /\
         Z.testbit b (7 - x `mod` PIXEL_SIZE) = isBlack (img x y) threshold) /\
    (forall g y k,
       0 <= g < EPD_WIDTH `div` PIXEL_SIZE -> 0 <= y < EPD_HEIGHT ->
       0 <= k < PIXEL_SIZE ->
       (forall j, 0 <= j < PIXEL_SIZE ->
          isBlack (img (g * PIXEL_SIZE + j) y) threshold = bool_decide (j = k)) ->
       buffer !! Z.to_nat (y * (EPD_WIDTH `div` PIXEL_SIZE) + g)
         = Some (Z.shiftr 0x80 k)).
Proof.
  intros Hgeo HG8 Hl.
  destruct (row_bytes_spec Hgeo) as (Hrb0 & Hrb & Hdiv).
  pose proof Hgeo as (HG & HW & HH & _).
  exists (packed_buffer img threshold). rewrite <- Hdiv.
  split; [by rewrite (getBuffer_run l h img threshold Hgeo Hl)|]. split.
  - intros x y Hx Hy. by apply packed_buffer_pixel.
  - intros g y k Hg Hy Hk Hstripe.
    rewrite packed_buffer_lookup by nia. f_equal.
    rewrite byte_at_group by lia. apply Z.bits_inj'. intros i Hi.
    rewrite packed_byte_testbit, Z.shiftr_spec by lia. change 0x80 with (2 ^ 7).
    rewrite Z.pow2_bits_eqb by lia.
    destruct (Z.ltb_spec (7 - i) (Z.of_nat (Z.to_nat PIXEL_SIZE))) as [Hlt|Hge];
      destruct (Z.leb_spec 0 (7 - i)) as [Hle|Hgt]; cbn [andb].
    + rewrite Hstripe by lia. case_bool_decide;
        destruct (Z.eqb_spec 7 (i + k)); try done; lia.
    + destruct (Z.eqb_spec 7 (i + k)); try done; lia.
    + destruct (Z.eqb_spec 7 (i + k)); try done; lia.
    + destruct (Z.eqb_spec 7 (i + k)); try done; lia.
Qed.

(** C2. On a driver built by [New], for every image and threshold,
    [getBuffer] returns a buffer of exactly [(W / G) * H] bytes. *)
Theorem getBuffer_length l h (img : Image) threshold :
  native_geometry -> h !! l = Some new_epd ->
  exists buffer,
    result (getBuffer (Some l) img threshold h) = Returns buffer /\
    Z.of_nat (length buffer) = (EPD_WIDTH `div` PIXEL_SIZE) * EPD_HEIGHT /\
    bufferSize new_epd = (EPD_WIDTH `div` PIXEL_SIZE) * EPD_HEIGHT.
Proof.
  intros Hgeo Hl.
  destruct (row_bytes_spec Hgeo) as (Hrb0 & Hrb & Hdiv).
  pose proof Hgeo as (HG & HW & HH & _).
  exists (packed_buffer img threshold). rewrite <- Hdiv.
  split; [by rewrite (getBuffer_run l h img threshold Hgeo Hl)|].
  split; [apply packed_buffer_length; nia | done].
Qed.

(** *** The command sequences *)

Lemma turnOnDisplay_run e h :
  turnOnDisplay e h =
    Run (Returns tt) h
      [ EvLog "Turning on display"; EvSendCommand 0x12; EvWait 100;
        EvWaitUntilIdle; EvLog "Display turned on" ].
Proof. unfold turnOnDisplay. run_line I. reflexivity. Qed.

Lemma display_run e buffer h :
  display e buffer h =
    Run (Returns tt) h
      [ EvLog "Displaying buffer";
        EvSendCommand 0x10; EvSendData buffer;
        EvSendCommand 0x13; EvSendData buffer;
        EvLog "Turning on display"; EvSendCommand 0x12; EvWait 100;
        EvWaitUntilIdle; EvLog "Display turned on";
        EvLog "Buffer displayed" ].
Proof. unfold display, turnOnDisplay. run_line I. reflexivity. Qed.

Lemma DisplayImage_run l h (img : Image) :
  native_geometry -> h !! l = Some new_epd ->
  DisplayImage (Some l) img h =
    Run (Returns tt) h
      [ EvLog "Displaying image";
        EvLog "Getting buffer"; EvLog "Buffer ready";
        EvLog "Displaying buffer";
        EvSendCommand 0x10; EvSendData (packed_buffer img 199);
        EvSendCommand 0x13; EvSendData (packed_buffer img 199);
        EvLog "Turning on display"; EvSendCommand 0x12; EvWait 100;
        EvWaitUntilIdle; EvLog "Display turned on";
        EvLog "Buffer displayed";
        EvLog "Image displayed" ].
Proof.
  intros Hgeo Hl. unfold DisplayImage, println.
  rewrite bind_emit, (bind_returns _ _ _ _ _ _ (getBuffer_run l h img 199 Hgeo Hl)).
  rewrite (bind_returns _ _ _ _ _ _ (display_run (Some l) (packed_buffer img 199) h)).
  reflexivity.
Qed.

(** C6. [reset] drives the reset line high, waits 20 ms, drives it low, waits
    2 ms, drives it high and waits 20 ms; between its two log lines it does
    nothing else, and it leaves the driver as it was. *)
Theorem reset_pulse l d h :
  h !! l = Some d ->
  reset (Some l) h =
    Run (Returns tt) h
      [ EvLog "Resetting display";
        EvPinWrite (rst d) rpio.High; EvWait 20;
        EvPinWrite (rst d) rpio.Low; EvWait 2;
        EvPinWrite (rst d) rpio.High; EvWait 20;
        EvLog "Display reset" ] /\
  panel_io (emitted (reset (Some l) h)) =
    [ EvPinWrite (rst d) rpio.High; EvWait 20;
      EvPinWrite (rst d) rpio.Low; EvWait 2;
      EvPinWrite (rst d) rpio.High; EvWait 20 ].
Proof. intros Hl. rewrite (reset_run l d h Hl). done. Qed.

Lemma Init_run l d h :
  h !! l = Some d ->
  Init (Some l) h =
    Run (Returns tt) h
      ([EvLog "Initializing display"] ++
       emitted (reset (Some l) h) ++
       [ EvSendCommand 0x01; EvSendData [0x07; 0x07; 0x3f; 0x3f];
         EvSendCommand 0x06; EvSendData [0x17; 0x17; 0x28; 0x17];
         EvSendCommand 0x04; EvWait 100; EvWaitUntilIdle;
         EvSendCommand 0x00; EvSendData [0x1F];
         EvSendCommand 0x61; EvSendData [0x03; 0x20; 0x01; 0xE0];
         EvSendCommand 0x15; EvSendData [0x00];
         EvSendCommand 0x50; EvSendData [0x10; 0x17];
         EvSendCommand 0x52; EvSendData [0x03];
         EvSendCommand 0x60; EvSendData [0x22];
         EvLog "Display initialized" ]).
Proof.
  intros Hl. unfold Init, println.
  rewrite bind_emit, (bind_returns _ _ _ _ _ _ (reset_run l d h Hl)).
  rewrite (reset_run l d h Hl). run_line Hl. reflexivity.
Qed.

(** C5. [Init] performs [reset] and then, in this order: power setting 0x01
    with its payload, booster soft start 0x06 with its payload, power on 0x04
    without payload, a wait of 100 ms and a busy-wait, panel setting 0x00,
    resolution 0x61 with the payload that encodes 800 x 480, 0x15, the data
    interval 0x50, 0x52 and 0x60, each with its payload. *)
Theorem Init_sequence l d h :
  h !! l = Some d ->
  result (Init (Some l) h) = Returns tt /\
  panel_io (emitted (Init (Some l) h)) =
    panel_io (emitted (reset (Some l) h)) ++
    [ EvSendCommand 0x01; EvSendData [0x07; 0x07; 0x3f; 0x3f];
      EvSendCommand 0x06; EvSendData [0x17; 0x17; 0x28; 0x17];
      EvSendCommand 0x04; EvWait 100; EvWaitUntilIdle;
      EvSendCommand 0x00; EvSendData [0x1F];
      EvSendCommand 0x61; EvSendData [0x03; 0x20; 0x01; 0xE0];
      EvSendCommand 0x15; EvSendData [0x00];
      EvSendCommand 0x50; EvSendData [0x10; 0x17];
      EvSendCommand 0x52; EvSendData [0x03];
      EvSendCommand 0x60; EvSendData [0x22] ] /\
  [0x03; 0x20; 0x01; 0xE0] = resolution_payload 800 480 /\
  (EPD_WIDTH = 800 -> EPD_HEIGHT = 480 ->
   [0x03; 0x20; 0x01; 0xE0] = resolution_payload EPD_WIDTH EPD_HEIGHT).
Proof.
  intros Hl. rewrite (Init_run l d h Hl), (reset_run l d h Hl).
  split; [done|]. split; [done|]. split; [done|]. by intros -> ->.
Qed.

(** C7. [Sleep] sends the power-off command, busy-waits, sends the deep-sleep
    command with the single payload byte 0xA5 and then waits 2000 ms; nothing
    follows that wait but a log line, so no busy-wait follows the deep-sleep
    command. *)
Theorem Sleep_sequence e h :
  Sleep e h =
    Run (Returns tt) h
      [ EvLog "Putting display to sleep";
        EvSendCommand POWER_OFF; EvWaitUntilIdle;
        EvSendCommand DEEP_SLEEP; EvSendData [0xa5];
        EvWait 2000;
        EvLog "Display is asleep" ] /\
  panel_io (emitted (Sleep e h)) =
    [ EvSendCommand POWER_OFF; EvWaitUntilIdle;
      EvSendCommand DEEP_SLEEP; EvSendData [0xa5];
      EvWait 2000 ].
Proof.
  assert (Sleep e h =
    Run (Returns tt) h
      [ EvLog "Putting display to sleep";
        EvSendCommand POWER_OFF; EvWaitUntilIdle;
        EvSendCommand DEEP_SLEEP; EvSendData [0xa5];
        EvWait 2000;
        EvLog "Display is asleep" ]) as ->.
  { unfold Sleep. run_line I. reflexivity. }
  done.
Qed.

(** C3. [display] sends command 0x10 and the buffer in one data transaction,
    command 0x13 and the same buffer in a second one, then command 0x12, waits
    100 ms and busy-waits; [DisplayImage] does so with the buffer that
    [getBuffer] packs, so its two data writes carry the same bytes. *)
Theorem DisplayImage_sequence l h (img : Image) buffer :
  native_geometry -> h !! l = Some new_epd ->
  (result (display (Some l) buffer h) = Returns tt /\
   panel_io (emitted (display (Some l) buffer h)) =
     [ EvSendCommand 0x10; EvSendData buffer;
       EvSendCommand 0x13; EvSendData buffer;
       EvSendCommand 0x12; EvWait 100; EvWaitUntilIdle ]) /\
  exists packed,
    result (getBuffer (Some l) img 199 h) = Returns packed /\
    result (DisplayImage (Some l) img h) = Returns tt /\
    panel_io (emitted (DisplayImage (Some l) img h)) =
      [ EvSendCommand 0x10; EvSendData packed;
        EvSendCommand 0x13; EvSendData packed;
        EvSendCommand 0x12; EvWait 100; EvWaitUntilIdle ] /\
    data_writes (emitted (DisplayImage (Some l) img h)) = [packed; packed].
Proof.
  intros Hgeo Hl. rewrite display_run. split; [done|].
  exists (packed_buffer img 199).
  by rewrite (getBuffer_run l h img 199 Hgeo Hl), (DisplayImage_run l h img Hgeo Hl).
Qed.

(** What [Clear] does when the local buffer of [EPD_WIDTH / 8] bytes holds
    the [w] bytes of a row: the first phase sends the buffer with its first
    [w] bytes set, the second sends it zeroed again. *)
Lemma Clear_run e h :
  0 <= EPD_WIDTH -> 0 <= EPD_HEIGHT ->
  let w :=
    if EPD_WIDTH `rem` PIXEL_SIZE =? 0
    then EPD_WIDTH `quot` PIXEL_SIZE
    else EPD_WIDTH `quot` PIXEL_SIZE + 1 in
  0 <= w <= EPD_WIDTH `quot` 8 ->
  Clear e h =
    Run (Returns tt) h
      ([ EvLog "Clearing display"; EvSendCommand 0x10 ] ++
       replicate (Z.to_nat EPD_HEIGHT)
         (EvSendData (replicate (Z.to_nat w) 0xFF ++
                      replicate (Z.to_nat (EPD_WIDTH `quot` 8) - Z.to_nat w) 0)) ++
       [ EvSendCommand 0x13 ] ++
       replicate (Z.to_nat EPD_HEIGHT)
         (EvSendData (replicate (Z.to_nat (EPD_WIDTH `quot` 8)) 0)) ++
       [ EvLog "Turning on display"; EvSendCommand 0x12; EvWait 100;
         EvWaitUntilIdle; EvLog "Display turned on";
         EvLog "Display cleared" ]).
Proof.
  intros HW HH w Hw.
  set (img0 := replicate (Z.to_nat (EPD_WIDTH `quot` 8)) 0).
  set (img1 := replicate (Z.to_nat w) 0xFF ++ drop (Z.to_nat w) img0).
  set (img2 := replicate (Z.to_nat w) 0x00 ++ drop (Z.to_nat w) img1).
  assert (length img0 = Z.to_nat (EPD_WIDTH `quot` 8)) as Hlen0
    by apply length_replicate.
  assert (Z.of_nat (length img1) = EPD_WIDTH `quot` 8) as Hlen1.
  { unfold img1. rewrite length_app, length_replicate, length_drop. lia. }
  enough (exists evs,
    emits (Clear e) tt evs /\
    evs = [EvLog "Clearing display"] ++ [] ++ [EvSendCommand 0x10] ++ [] ++
          mjoin (replicate (Z.to_nat EPD_HEIGHT) [EvSendData img1]) ++
          [EvSendCommand 0x13] ++ [] ++
          mjoin (replicate (Z.to_nat EPD_HEIGHT) [EvSendData img2]) ++
          [ EvLog "Turning on display"; EvSendCommand 0x12; EvWait 100;
            EvWaitUntilIdle; EvLog "Display turned on" ] ++
          [EvLog "Display cleared"]) as (evs & Hrun & ->).
  { rewrite (Hrun h), !mjoin_replicate_singleton.
    assert (img2 = replicate (Z.to_nat (EPD_WIDTH `quot` 8)) 0) as ->.
    { unfold img2, img1, img0.
      rewrite drop_app_length' by (rewrite length_replicate; lia).
      rewrite drop_replicate, <- replicate_add. f_equal. lia. }
    assert (img1 = replicate (Z.to_nat w) 255 ++
                   replicate (Z.to_nat (EPD_WIDTH `quot` 8) - Z.to_nat w) 0) as ->.
    { unfold img1, img0. by rewrite drop_replicate. }
    reflexivity. }
  eexists. split; [|reflexivity].
  unfold Clear, println, sendCommand. fold w.
  eapply emits_bind; [apply emits_emit|].
  unfold make_bytes. rewrite (proj2 (Z.ltb_ge _ 0)) by lia. fold img0.
  eapply emits_bind; [apply emits_ret|].
  eapply emits_bind; [apply emits_emit|].
  eapply emits_bind; [apply fill_emits; lia|]. fold img1.
  eapply emits_bind;
    [apply (for_lt_repeat _ [EvSendData img1]); intros; apply emits_emit|].
  eapply emits_bind; [apply emits_emit|].
  eapply emits_bind; [apply fill_emits; lia|]. fold img2.
  eapply emits_bind;
    [apply (for_lt_repeat _ [EvSendData img2]); intros; apply emits_emit|].
  eapply emits_bind; [intros h'; apply turnOnDisplay_run|].
  apply emits_emit.
Qed.

(** C4. With eight pixels per byte and a width that is a whole number of
    bytes, [Clear] sends command 0x10 and [H] scanlines of [ceil(W / G)] bytes
    0xFF, command 0x13 and [H] scanlines of [ceil(W / G)] bytes 0x00, and then
    turns the display on: command 0x12, 100 ms, busy-wait. *)
Theorem Clear_sequence e h :
  PIXEL_SIZE = 8 -> EPD_WIDTH `rem` 8 = 0 ->
  0 <= EPD_WIDTH -> 0 <= EPD_HEIGHT ->
  result (Clear e h) = Returns tt /\
  panel_io (emitted (Clear e h)) =
    [ EvSendCommand 0x10 ] ++
    replicate (Z.to_nat EPD_HEIGHT)
      (EvSendData (replicate (Z.to_nat (ceil_div EPD_WIDTH PIXEL_SIZE)) 0xFF)) ++
    [ EvSendCommand 0x13 ] ++
    replicate (Z.to_nat EPD_HEIGHT)
      (EvSendData (replicate (Z.to_nat (ceil_div EPD_WIDTH PIXEL_SIZE)) 0x00)) ++
    [ EvSendCommand 0x12; EvWait 100; EvWaitUntilIdle ].
Proof.
  intros HG Hrem HW HH.
  assert (EPD_WIDTH `quot` 8 = ceil_div EPD_WIDTH PIXEL_SIZE) as Hceil.
  { unfold ceil_div. rewrite HG, Z.quot_div_nonneg by lia.
    pose proof (Z.quot_rem' EPD_WIDTH 8) as Hqr.
    rewrite Hrem, Z.quot_div_nonneg in Hqr by lia.
    apply (Z.div_unique _ _ _ 7); lia. }
  pose proof (Z.quot_pos EPD_WIDTH 8 HW ltac:(lia)) as Hq.
  rewrite <- Hceil.
  rewrite Clear_run; [| done | done | rewrite HG, Hrem; simpl; lia].
  rewrite HG, Hrem. change (0 =? 0) with true. cbv iota.
  rewrite Nat.sub_diag, app_nil_r. split; [done|].
  unfold panel_io. cbn [emitted].
  rewrite !List.filter_app, !filter_replicate_keep by done. reflexivity.
Qed.

(** C8. At threshold 199 an image whose pixels all have darkness 0 packs to
    bytes 0x00 and, with eight pixels per byte, an image whose pixels all have
    darkness 255 packs to bytes 0xFF; [DisplayImage] sends the buffer packed
    at threshold 199: a pixel is a set bit of its payload exactly when its
    darkness is at least 199. *)
Theorem DisplayImage_threshold l h :
  native_geometry -> PIXEL_SIZE <= 8 -> h !! l = Some new_epd ->
  (forall img : Image,
     (forall x y, 0 <= x < EPD_WIDTH -> 0 <= y < EPD_HEIGHT ->
        darkness (img x y) = 0) ->
     result (getBuffer (Some l) img 199 h) =
       Returns (replicate (Z.to_nat ((EPD_WIDTH `div` PIXEL_SIZE) * EPD_HEIGHT)) 0x00)) /\
  (forall img : Image,
     PIXEL_SIZE = 8 ->
     (forall x y, 0 <= x < EPD_WIDTH -> 0 <= y < EPD_HEIGHT ->
        darkness (img x y) = 255) ->
     result (getBuffer (Some l) img 199 h) =
       Returns (replicate (Z.to_nat ((EPD_WIDTH `div` PIXEL_SIZE) * EPD_HEIGHT)) 0xFF)) /\
  (forall img : Image,
     exists packed,
       result (getBuffer (Some l) img 199 h) = Returns packed /\
       data_writes (emitted (DisplayImage (Some l) img h)) = [packed; packed] /\
       forall x y, 0 <= x < EPD_WIDTH -> 0 <= y < EPD_HEIGHT ->
         exists b,
           packed !! Z.to_nat (y * (EPD_WIDTH `div` PIXEL_SIZE) + x `div` PIXEL_SIZE)
             = Some b /\
           Z.testbit b (7 - x `mod` PIXEL_SIZE) = (199 <=? darkness (img x y))).
Proof.
  intros Hgeo HG8 Hl.
  destruct (row_bytes_spec Hgeo) as (Hrb0 & Hrb & Hdiv).
  pose proof Hgeo as (HG & HW & HH & _).
  rewrite <- Hdiv. split; [|split].
  - intros img Hwhite. rewrite (getBuffer_run l h img 199 Hgeo Hl). simpl. f_equal.
    apply fmap_seqZ_const. intros i Hi. apply packed_byte_white.
    intros j Hj. rewrite Z2Nat.id in Hj by lia.
    destruct (group_in_panel i j Hgeo Hi Hj) as [Hx Hy].
    unfold isBlack. by rewrite Hwhite.
  - intros img HG' Hblack. rewrite (getBuffer_run l h img 199 Hgeo Hl). simpl. f_equal.
    apply fmap_seqZ_const. intros i Hi. unfold byte_at. rewrite HG'.
    change (Z.to_nat 8) with 8%nat. apply packed_byte_black.
    intros j Hj. rewrite <- HG'.
    destruct (group_in_panel i j Hgeo Hi ltac:(lia)) as [Hx Hy].
    unfold isBlack. by rewrite Hblack.
  - intros img. exists (packed_buffer img 199).
    rewrite (getBuffer_run l h img 199 Hgeo Hl), (DisplayImage_run l h img Hgeo Hl).
    split; [done|]. split; [done|].
    intros x y Hx Hy. by apply packed_buffer_pixel.
Qed.

(** *** Construction *)

(** C9. When [rpio.Open] or [rpio.SpiBegin] fails, [New] returns a nil driver
    and the error, allocates nothing and has emitted no transaction and no
    level on a line; when both succeed it returns a fresh driver holding the
    struct of [new_epd] and a nil error.  In no case does [New] touch the
    panel. *)
Theorem New_errors err open_answer spi_answer h :
  New (Some err) spi_answer h = Run (Returns (None, Some err)) h [EvOpen] /\
  New None (Some err) h =
    Run (Returns (None, Some err)) h [EvOpen; EvSpiBegin rpio.Spi0] /\
  (exists l,
     h !! l = None /\
     New None None h =
       Run (Returns (Some l, None)) (<[l := new_epd]> h)
         [ EvOpen; EvSpiBegin rpio.Spi0; EvSpiChipSelect 0;
           EvPinMode 25 rpio.Output; EvPinMode 8 rpio.Output;
           EvPinMode 17 rpio.Output; EvPinMode 24 rpio.Input ]) /\
  Forall (fun ev => touches_panel ev = false)
    (emitted (New open_answer spi_answer h)).
Proof.
  split; [done|]. split; [done|]. split.
  - exists (fresh (dom h)). split; [|done].
    apply not_elem_of_dom, is_fresh.
  - destruct open_answer, spi_answer; repeat constructor.
Qed.

(** *** The driver struct is never written *)

Lemma preserves_getBuffer e (img : Image) threshold :
  preserves (getBuffer e img threshold).
Proof. unfold getBuffer, pack_pixels. preserve. Qed.

Lemma preserves_operation e (op : operation) : preserves (run_operation e op).
Proof.
  destruct op; simpl;
    [ unfold Init, reset | unfold Bounds | | unfold display, turnOnDisplay
    | unfold DisplayImage, display, turnOnDisplay | unfold Clear, turnOnDisplay
    | unfold Sleep | unfold Close | unfold reset ];
    preserve; apply preserves_getBuffer.
Qed.

Lemma preserves_operations e (ops : list operation) :
  preserves (run_operations e ops).
Proof.
  induction ops as [|op ops IH]; simpl; [apply preserves_ret|].
  apply preserves_bind; [apply preserves_operation | done].
Qed.

(** C10. No operation of a driver writes a field of an [Epd]: whatever the
    operations and however they end, the heap is the one they started from;
    so [Bounds] gives the rectangle (0,0)-(W,H) right after [New] and after
    any sequence of operations. *)
Theorem operations_preserve_driver h (ops : list operation) :
  0 <= EPD_WIDTH -> 0 <= EPD_HEIGHT ->
  (forall e op h', heap_after (run_operation e op h') = h') /\
  exists l,
    let h0 := heap_after (New None None h) in
    let full :=
      {| image.Min := {| image.X := 0; image.Y := 0 |};
         image.Max := {| image.X := EPD_WIDTH; image.Y := EPD_HEIGHT |} |} in
    result (New None None h) = Returns (Some l, None) /\
    h0 !! l = Some new_epd /\
    result (Bounds (Some l) h0) = Returns full /\
    heap_after (run_operations (Some l) ops h0) = h0 /\
    result (Bounds (Some l) (heap_after (run_operations (Some l) ops h0)))
      = Returns full.
Proof.
  intros HW HH. split; [intros e op h'; apply preserves_operation|].
  exists (fresh (dom h)). cbv zeta.
  rewrite preserves_operations.
  assert (heap_after (New None None h) !! fresh (dom h) = Some new_epd) as Hl
    by apply lookup_insert_eq.
  assert (bounds new_epd =
    {| image.Min := {| image.X := 0; image.Y := 0 |};
       image.Max := {| image.X := EPD_WIDTH; image.Y := EPD_HEIGHT |} |}) as Hb.
  { unfold new_epd, image.Rect. simpl.
    by rewrite (proj2 (Z.ltb_ge EPD_WIDTH 0)), (proj2 (Z.ltb_ge EPD_HEIGHT 0)) by lia. }
  assert (result (Bounds (Some (fresh (dom h))) (heap_after (New None None h)))
          = Returns (bounds new_epd)) as HB.
  { unfold Bounds. by rewrite (bind_load _ _ _ _ Hl). }
  rewrite HB, Hb. done.
Qed.

End DriverFacts.

(** ** The theorems at the panel of the package *)

(** Closes a comparison between numbers of the panel. *)
Ltac panel_arith :=
  cbn; repeat split; first [reflexivity | lia | by vm_compute].

Lemma waveshare_geometry : native_geometry (K := waveshare_panel).
Proof. unfold native_geometry, fits_int. panel_arith. Qed.

Lemma waveshare_driver :
  one_driver waveshare_panel !! O = Some (new_epd (K := waveshare_panel)).
Proof. apply lookup_singleton_eq. Qed.

(** C1 at the panel: a black stripe at column 11 is bit 3 of byte 1 of each
    row; in row 1 that is byte 101. *)
Lemma getBuffer_pixel_bit_witness :
  exists buffer,
    result (getBuffer (K := waveshare_panel) (D := gray_darkness)
              (Some O) (stripe 11) 199 (one_driver waveshare_panel))
      = Returns buffer /\
    buffer !! 101%nat = Some 0x10.
Proof.
  destruct (getBuffer_pixel_bit (K := waveshare_panel) (D := gray_darkness)
              O (one_driver waveshare_panel) (stripe 11) 199
              waveshare_geometry ltac:(cbn; lia) waveshare_driver)
    as (buffer & Hres & _ & Hstripe).
  exists buffer. split; [exact Hres|].
  apply (Hstripe 1 1 3); [panel_arith | panel_arith | panel_arith |].
  cbn. intros j Hj. unfold isBlack, darkness, gray_darkness, stripe.
  destruct (Z.eqb_spec (1 * 8 + j) 11); case_bool_decide; try reflexivity; lia.
Defined.

(** C2 at the panel: 100 bytes per row, 480 rows. *)
Lemma getBuffer_length_witness :
  exists buffer,
    result (getBuffer (K := waveshare_panel) (D := gray_darkness)
              (Some O) all_white 199 (one_driver waveshare_panel))
      = Returns buffer /\
    Z.of_nat (length buffer) = 48000.
Proof.
  destruct (getBuffer_length (K := waveshare_panel) (D := gray_darkness)
              O (one_driver waveshare_panel) all_white 199
              waveshare_geometry waveshare_driver)
    as (buffer & Hres & Hlen & _).
  exists buffer. split; [exact Hres | exact Hlen].
Defined.

(** C3 at the panel. *)
Lemma DisplayImage_sequence_witness :
  exists packed,
    panel_io (emitted (DisplayImage (K := waveshare_panel) (D := gray_darkness)
                         (Some O) (stripe 11) (one_driver waveshare_panel))) =
      [ EvSendCommand 0x10; EvSendData packed;
        EvSendCommand 0x13; EvSendData packed;
        EvSendCommand 0x12; EvWait 100; EvWaitUntilIdle ] /\
    data_writes (emitted (DisplayImage (K := waveshare_panel) (D := gray_darkness)
                            (Some O) (stripe 11) (one_driver waveshare_panel))) =
      [packed; packed].
Proof.
  destruct (DisplayImage_sequence (K := waveshare_panel) (D := gray_darkness)
              O (one_driver waveshare_panel) (stripe 11) []
              waveshare_geometry waveshare_driver)
    as (_ & packed & _ & _ & Hio & Hdata).
  exists packed. split; [exact Hio | exact Hdata].
Defined.

(** C4 at the panel: 480 scanlines of 100 bytes in each phase. *)
Lemma Clear_sequence_witness :
  panel_io (emitted (Clear (K := waveshare_panel) (Some O) (one_driver waveshare_panel))) =
    [ EvSendCommand 0x10 ] ++
    replicate (Z.to_nat 480) (EvSendData (replicate (Z.to_nat 100) 0xFF)) ++
    [ EvSendCommand 0x13 ] ++
    replicate (Z.to_nat 480) (EvSendData (replicate (Z.to_nat 100) 0x00)) ++
    [ EvSendCommand 0x12; EvWait 100; EvWaitUntilIdle ].
Proof.
  apply (Clear_sequence (K := waveshare_panel) (Some O) (one_driver waveshare_panel));
    cbn; (reflexivity || lia).
Defined.

(** C5 at the panel: the resolution payload is the one of its 800 x 480. *)
Lemma Init_sequence_witness :
  result (Init (Some O) (one_driver waveshare_panel)) = Returns tt /\
  [0x03; 0x20; 0x01; 0xE0] =
    resolution_payload (EPD_WIDTH (Constants := waveshare_panel))
      (EPD_HEIGHT (Constants := waveshare_panel)).
Proof.
  destruct (Init_sequence (K := waveshare_panel) O _ (one_driver waveshare_panel)
              waveshare_driver)
    as (Hres & _ & _ & Hgeo).
  split; [exact Hres | apply Hgeo; reflexivity].
Defined.

(** C6 at the panel: the reset line is pin 17. *)
Lemma reset_pulse_witness :
  panel_io (emitted (reset (Some O) (one_driver waveshare_panel))) =
    [ EvPinWrite 17 rpio.High; EvWait 20;
      EvPinWrite 17 rpio.Low; EvWait 2;
      EvPinWrite 17 rpio.High; EvWait 20 ].
Proof.
  exact (proj2 (reset_pulse O _ (one_driver waveshare_panel) waveshare_driver)).
Defined.

(** C8 at the panel. *)
Lemma DisplayImage_threshold_witness :
  result (getBuffer (K := waveshare_panel) (D := gray_darkness)
            (Some O) all_white 199 (one_driver waveshare_panel))
    = Returns (replicate (Z.to_nat 48000) 0x00) /\
  result (getBuffer (K := waveshare_panel) (D := gray_darkness)
            (Some O) all_black 199 (one_driver waveshare_panel))
    = Returns (replicate (Z.to_nat 48000) 0xFF).
Proof.
  destruct (DisplayImage_threshold (K := waveshare_panel) (D := gray_darkness)
              O (one_driver waveshare_panel)
              waveshare_geometry ltac:(cbn; lia) waveshare_driver)
    as (Hwhite & Hblack & _).
  split.
  - apply Hwhite. reflexivity.
  - apply Hblack; reflexivity.
Defined.

(** C10 at the panel: a whole session leaves the bounds alone. *)
Lemma operations_preserve_driver_witness :
  exists l,
    result (Bounds (Some l)
              (heap_after
                 (run_operations (K := waveshare_panel) (D := gray_darkness) (Some l)
                    [ OpInit; OpClear; OpDisplayImage all_black; OpSleep; OpClose ]
                    (heap_after (New (K := waveshare_panel) None None ∅)))))
    = Returns {| image.Min := {| image.X := 0; image.Y := 0 |};
                 image.Max := {| image.X := 800; image.Y := 480 |} |}.
Proof.
  destruct (operations_preserve_driver (K := waveshare_panel) (D := gray_darkness) ∅
              [ OpInit; OpClear; OpDisplayImage all_black; OpSleep; OpClose ]
              ltac:(cbn; lia) ltac:(cbn; lia))
    as (_ & l & _ & _ & _ & _ & Hbounds).
  exists l. exact Hbounds.
Defined.

(** ** The driver run on a small panel *)

Example getBuffer_small :
  getBuffer (K := small_panel) (D := gray_darkness)
    (Some O) (stripe 3) 199 (one_driver small_panel) =
  Run (Returns [0x10; 0x00; 0x10; 0x00]) (one_driver small_panel)
    [ EvLog "Getting buffer"; EvLog "Buffer ready" ].
Proof. vm_compute. reflexivity. Qed.

Example Clear_small e h :
  panel_io (emitted (Clear (K := small_panel) e h)) =
    [ EvSendCommand 0x10; EvSendData [0xFF; 0xFF]; EvSendData [0xFF; 0xFF];
      EvSendCommand 0x13; EvSendData [0x00; 0x00]; EvSendData [0x00; 0x00];
      EvSendCommand 0x12; EvWait 100; EvWaitUntilIdle ].
Proof. reflexivity. Qed.

(** A driver that was never built: the nil pointer stops [reset] before it
    drives any line. *)
Example reset_nil h :
  reset None h = Run (Panics "nil pointer dereference") h [EvLog "Resetting display"].
Proof. reflexivity. Qed.

(** With a width that is not a whole number of groups, [getBuffer] writes
    past the buffer in the last row. *)
Example getBuffer_partial_group :
  let K := {| EPD_WIDTH := 12; EPD_HEIGHT := 2; PIXEL_SIZE := 8;
              POWER_OFF := 0x02; DEEP_SLEEP := 0x07 |} in
  result (getBuffer (K := K) (D := gray_darkness) (Some O) all_white 199 (one_driver K))
    = Panics "index out of range".
Proof. vm_compute. reflexivity. Qed.

(** With a width that is not a whole number of bytes the row of [Clear] is one
    byte longer than its buffer: the first phase stops at the first index past
    the end. *)
Example Clear_partial_byte e h :
  let K := {| EPD_WIDTH := 12; EPD_HEIGHT := 2; PIXEL_SIZE := 8;
              POWER_OFF := 0x02; DEEP_SLEEP := 0x07 |} in
  Clear (K := K) e h =
    Run (Panics "index out of range") h
      [ EvLog "Clearing display"; EvSendCommand 0x10 ].
Proof. reflexivity. Qed.

(** With sixteen pixels per group the row of [Clear] is half its buffer of
    [EPD_WIDTH / 8] bytes: the scanlines of the first phase are half 0xFF. *)
Example Clear_wide_group e h :
  let K := {| EPD_WIDTH := 32; EPD_HEIGHT := 1; PIXEL_SIZE := 16;
              POWER_OFF := 0x02; DEEP_SLEEP := 0x07 |} in
  data_writes (emitted (Clear (K := K) e h)) =
    [ [0xFF; 0xFF; 0x00; 0x00]; [0x00; 0x00; 0x00; 0x00] ].
Proof. reflexivity. Qed.

(** ** Panics, silence and partial results *)

Lemma panics_bind_l {A B} (m : M A) (k : A -> M B) msg evs :
  panics m msg evs -> panics (bind m k) msg evs.
Proof. intros Hm h. unfold bind. cbv zeta. by rewrite !(Hm h). Qed.

Lemma panics_bind_r {A B} (m : M A) (k : A -> M B) a evs msg evs' :
  emits m a evs -> panics (k a) msg evs' -> panics (bind m k) msg (evs ++ evs').
Proof.
  intros Hm Hk h. unfold bind. cbv zeta. rewrite !(Hm h). simpl.
  by rewrite !(Hk h).
Qed.

Lemma index_set_out (a : list Z) i v :
  Z.of_nat (length a) <= i -> panics (index_set a i v) "index out of range" [].
Proof.
  intros Hi h. unfold index_set.
  by rewrite (proj2 (Z.ltb_ge i _)), andb_false_r by lia.
Qed.

(** A loop whose first [n] iterations return and whose next one panics. *)
Lemma for_loop_panics {S} (I : nat -> S -> list event -> Prop) (lo hi step : Z)
    (body : Z -> S -> M S) (n : nat) msg evs' :
  (forall j : nat, (j <= n)%nat -> lo + Z.of_nat j * step < hi) ->
  (forall (k : nat) s evs, (k < n)%nat -> I k s evs ->
     exists s1 evs1,
       emits (body (lo + Z.of_nat k * step) s) s1 evs1 /\
       I (Datatypes.S k) s1 (evs ++ evs1)) ->
  (forall s evs, I n s evs ->
     panics (body (lo + Z.of_nat n * step) s) msg evs') ->
  forall (fuel k : nat) s evs,
    (k <= n)%nat -> (n - k < fuel)%nat -> I k s evs ->
    exists s1 evs1,
      I n s1 (evs ++ evs1) /\
      panics (for_loop fuel (fun i => i <? hi) (fun i => i + step) body
                (lo + Z.of_nat k * step) s) msg (evs1 ++ evs').
Proof.
  intros Hin Hbody Hpanic. induction fuel as [|fuel IH]; intros k s evs Hk Hfuel HI;
    [lia|].
  simpl. rewrite (proj2 (Z.ltb_lt _ _)) by (apply Hin; lia).
  destruct (decide (k = n)) as [->|Hne].
  - exists s, []. rewrite app_nil_r. split; [done|].
    apply panics_bind_l, (Hpanic s evs HI).
  - destruct (Hbody k s evs ltac:(lia) HI) as (s1 & evs1 & Hrun & HI1).
    destruct (IH (Datatypes.S k) s1 (evs ++ evs1)) as (s2 & evs2 & HI2 & Hrest);
      [lia | lia | done |].
    exists s2, (evs1 ++ evs2). rewrite app_assoc. split; [done|].
    rewrite <- app_assoc. eapply panics_bind_r; [exact Hrun|].
    replace (lo + Z.of_nat k * step + step)
      with (lo + Z.of_nat (Datatypes.S k) * step) by lia.
    exact Hrest.
Qed.

Lemma for_step_panics {S} (I : nat -> S -> list event -> Prop) (lo hi step : Z)
    (body : Z -> S -> M S) (n : nat) (s0 : S) msg evs' :
  0 < step ->
  (forall j : nat, (j <= n)%nat -> lo + Z.of_nat j * step < hi) ->
  (forall (k : nat) s evs, (k < n)%nat -> I k s evs ->
     exists s1 evs1,
       emits (body (lo + Z.of_nat k * step) s) s1 evs1 /\
       I (Datatypes.S k) s1 (evs ++ evs1)) ->
  (forall s evs, I n s evs ->
     panics (body (lo + Z.of_nat n * step) s) msg evs') ->
  I O s0 [] ->
  exists s1 evs1,
    I n s1 evs1 /\ panics (for_step lo hi step body s0) msg (evs1 ++ evs').
Proof.
  intros Hstep Hin Hbody Hpanic HI0. unfold for_step.
  assert (n < Z.to_nat (hi - lo))%nat as Hfuel.
  { specialize (Hin n ltac:(lia)). nia. }
  destruct (for_loop_panics I lo hi step body n msg evs' Hin Hbody Hpanic
              (Z.to_nat (hi - lo)) O s0 []) as (s1 & evs1 & HI & Hrun);
    [lia | lia | done |].
  exists s1, evs1. split; [done|].
  by replace lo with (lo + Z.of_nat O * step) at 2 by lia.
Qed.

Lemma bind_returns_inv {A B} (m : M A) (k : A -> M B) h b :
  result (bind m k h) = Returns b ->
  exists a, result (m h) = Returns a /\ result (k a (heap_after (m h))) = Returns b.
Proof.
  unfold bind. cbv zeta. destruct (result (m h)) as [a| |]; simpl; [|done..].
  intros Hk. by exists a.
Qed.

Lemma bind_not_returns {A B} (m : M A) (k : A -> M B) h :
  (forall a, result (m h) <> Returns a) ->
  emitted (bind m k h) = emitted (m h) /\
  forall b, result (bind m k h) <> Returns b.
Proof.
  intros Hm. unfold bind. cbv zeta.
  destruct (result (m h)) as [a| |]; simpl; [by destruct (Hm a) | done..].
Qed.

(** What a loop keeps whenever it returns. *)
Lemma for_loop_returns_inv {S} (I : S -> Prop) fuel cond next (body : Z -> S -> M S) :
  (forall i s h s', I s -> result (body i s h) = Returns s' -> I s') ->
  forall i s h s',
    I s -> result (for_loop fuel cond next body i s h) = Returns s' -> I s'.
Proof.
  intros Hbody. induction fuel as [|fuel IH]; intros i s h s' HI; simpl.
  - destruct (cond i); [done|]. by intros [= <-].
  - destruct (cond i); [|by intros [= <-]].
    intros (s1 & Hs1 & Hrest)%bind_returns_inv. eauto.
Qed.

Lemma panel_io_app (evs1 evs2 : list event) :
  panel_io (evs1 ++ evs2) = panel_io evs1 ++ panel_io evs2.
Proof. apply List.filter_app. Qed.

Lemma quiet_ret {A} (a : A) : quiet (ret a).
Proof. done. Qed.

Lemma quiet_println msg : quiet (println msg).
Proof. done. Qed.

Lemma quiet_load e : quiet (load e).
Proof. intros h. unfold load. destruct e as [l|]; [destruct (h !! l)|]; done. Qed.

Lemma quiet_bind {A B} (m : M A) (k : A -> M B) :
  quiet m -> (forall a, quiet (k a)) -> quiet (bind m k).
Proof.
  intros Hm Hk h. unfold bind. cbv zeta.
  destruct (result (m h)) as [a| |]; simpl; [|apply Hm..].
  by rewrite panel_io_app, (Hm h), (Hk a).
Qed.

Lemma quiet_for_loop {S} fuel cond next (body : Z -> S -> M S) i s :
  (forall i s, quiet (body i s)) -> quiet (for_loop fuel cond next body i s).
Proof.
  intros Hbody. revert i s. induction fuel as [|fuel IH]; intros i s; simpl.
  - by destruct (cond i).
  - destruct (cond i); [|done]. apply quiet_bind; [apply Hbody | intros; apply IH].
Qed.

Lemma quiet_make_bytes n : quiet (make_bytes n).
Proof. unfold make_bytes. by destruct (n <? 0). Qed.

Lemma quiet_index_set a i v : quiet (index_set a i v).
Proof. unfold index_set. by destruct ((0 <=? i) && (i <? Z.of_nat (length a))). Qed.

Section DriverEdges.

Context {K : Constants} {Color : Type} {D : Darkness Color}.

(** *** Closing, nil drivers, construction *)

(** X1. [Close] drives chip select, data/command and reset low, in this order,
    then ends SPI and closes the GPIO library; it sends no transaction, waits
    for nothing and leaves the driver struct as it was. *)
Theorem Close_sequence l d h :
  h !! l = Some d ->
  Close (Some l) h =
    Run (Returns tt) h
      [ EvLog "Closing display";
        EvPinWrite (cs d) rpio.Low;
        EvPinWrite (dc d) rpio.Low;
        EvPinWrite (rst d) rpio.Low;
        EvSpiEnd rpio.Spi0; EvClose;
        EvLog "Display closed" ] /\
  data_writes (emitted (Close (Some l) h)) = [].
Proof.
  intros Hl.
  assert (Close (Some l) h =
    Run (Returns tt) h
      [ EvLog "Closing display";
        EvPinWrite (cs d) rpio.Low;
        EvPinWrite (dc d) rpio.Low;
        EvPinWrite (rst d) rpio.Low;
        EvSpiEnd rpio.Spi0; EvClose;
        EvLog "Display closed" ]) as ->.
  { unfold Close. run_line Hl. reflexivity. }
  done.
Qed.

(** X2. On a nil driver the methods that read a field of the struct panic at
    that read: [reset], [Init] and [Close] before they drive a line, [Bounds]
    at once, [getBuffer] and [DisplayImage] before any byte is packed or sent.
    Nothing but log lines has been emitted by then; in particular a nil
    [Close] never ends SPI. *)
Theorem nil_driver_panics (img : Image) threshold h :
  reset None h =
    Run (Panics "nil pointer dereference") h [EvLog "Resetting display"] /\
  Init None h =
    Run (Panics "nil pointer dereference") h
      [EvLog "Initializing display"; EvLog "Resetting display"] /\
  Close None h =
    Run (Panics "nil pointer dereference") h [EvLog "Closing display"] /\
  Bounds None h = Run (Panics "nil pointer dereference") h [] /\
  getBuffer None img threshold h =
    Run (Panics "nil pointer dereference") h [EvLog "Getting buffer"] /\
  DisplayImage None img h =
    Run (Panics "nil pointer dereference") h
      [EvLog "Displaying image"; EvLog "Getting buffer"].
Proof. repeat split. Qed.

(** X3. [New] only adds to the heap: called twice it gives two different
    drivers, each holding the struct of [new_epd], so both name the same four
    pins, and every driver that existed before is still there unchanged. *)
Theorem New_twice h :
  exists l1 l2,
    let r1 := New None None h in
    let r2 := New None None (heap_after r1) in
    result r1 = Returns (Some l1, None) /\
    result r2 = Returns (Some l2, None) /\
    l1 <> l2 /\
    heap_after r2 !! l1 = Some new_epd /\
    heap_after r2 !! l2 = Some new_epd /\
    forall l d, h !! l = Some d -> heap_after r2 !! l = Some d.
Proof.
  set (l1 := fresh (dom h)).
  set (h1 := <[l1 := new_epd]> h).
  set (l2 := fresh (dom h1)).
  assert (h !! l1 = None) as Hl1 by apply not_elem_of_dom, is_fresh.
  assert (h1 !! l2 = None) as Hl2 by apply not_elem_of_dom, is_fresh.
  assert (l1 <> l2) as Hne.
  { intros Heq. rewrite <- Heq in Hl2. unfold h1 in Hl2.
    by rewrite lookup_insert_eq in Hl2. }
  exists l1, l2. cbv zeta.
  change (heap_after (New None None h)) with h1.
  change (heap_after (New None None h1)) with (<[l2 := new_epd]> h1).
  split; [done|]. split; [done|]. split; [done|].
  split; [|split].
  - rewrite lookup_insert_ne by done. apply lookup_insert_eq.
  - apply lookup_insert_eq.
  - intros l d Hl.
    assert (l1 <> l) as Hl1' by (intros ->; congruence).
    assert (l2 <> l) as Hl2'.
    { intros ->. unfold h1 in Hl2. rewrite lookup_insert_ne in Hl2 by done.
      congruence. }
    rewrite lookup_insert_ne by done. unfold h1. by rewrite lookup_insert_ne.
Qed.

(** *** Operations one after another *)


(** *** What [getBuffer] does on any driver *)

Lemma packed_byte_nonneg (img : Image) threshold x y k :
  0 <= packed_byte img threshold x y k.
Proof.
  induction k as [|k IH]; cbn [packed_byte]; [done|].
  destruct (isBlack (img (x + Z.of_nat k) y) threshold); [|done].
  apply Z.lor_nonneg. split; [done|]. apply Z.shiftr_nonneg. done.
Qed.

Lemma group_byte_packed (img : Image) threshold x y :
  group_byte (packed_byte img threshold x y (Z.to_nat PIXEL_SIZE)).
Proof.
  set (b := packed_byte img threshold x y (Z.to_nat PIXEL_SIZE)).
  pose proof (packed_byte_nonneg img threshold x y (Z.to_nat PIXEL_SIZE)) as Hb.
  fold b in Hb. split.
  - split; [done|].
    assert (b = b `mod` 2 ^ 8) as ->; [|apply Z.mod_pos_bound; lia].
    apply Z.bits_inj'. intros i Hi. rewrite Z.testbit_mod_pow2 by lia.
    destruct (Z.ltb_spec i 8); [done|]. unfold b.
    rewrite packed_byte_testbit by done.
    rewrite (proj2 (Z.leb_gt 0 (7 - i))) by lia. by rewrite andb_false_r.
  - intros i Hi. unfold b. rewrite packed_byte_testbit by lia.
    destruct (Z.leb_spec 0 (7 - i)); [|by rewrite andb_false_r].
    rewrite (proj2 (Z.ltb_ge (7 - i) _)) by lia. done.
Qed.

Lemma group_byte_zero : group_byte 0.
Proof. split; [lia|]. intros i _. apply Z.bits_0. Qed.

(** Whenever [getBuffer] returns, it ran on a driver, and its buffer has the
    length the struct names and holds group bytes only. *)
Lemma getBuffer_returns_inv e (img : Image) threshold h buffer :
  result (getBuffer e img threshold h) = Returns buffer ->
  exists l d,
    e = Some l /\ h !! l = Some d /\
    Z.of_nat (length buffer) = bufferSize d /\
    Forall group_byte buffer.
Proof.
  unfold getBuffer, println. intros H.
  apply bind_returns_inv in H as ([] & _ & H).
  change (heap_after (emit (EvLog "Getting buffer") h)) with h in H.
  apply bind_returns_inv in H as (d & Hd & H).
  rewrite (preserves_load e h) in H.
  destruct e as [l|]; [|done]. unfold load in Hd.
  destruct (h !! l) as [d'|] eqn:Hl; [|done]. injection Hd as ->.
  exists l, d. split; [done|]. split; [done|].
  apply bind_returns_inv in H as (b0 & Hb0 & H).
  rewrite (preserves_make_bytes _ h) in H. unfold make_bytes in Hb0.
  destruct (Z.ltb_spec (bufferSize d) 0) as [|Hsize]; [done|].
  injection Hb0 as <-.
  apply bind_returns_inv in H as (b1 & Hb1 & H).
  apply bind_returns_inv in H as ([] & _ & H). injection H as <-.
  set (I := fun b : list Z =>
    Z.of_nat (length b) = bufferSize d /\ Forall group_byte b).
  change (I b1). unfold for_lt, for_step in Hb1.
  eapply (for_loop_returns_inv I); [| |exact Hb1].
  - intros y b h1 b' Hb Hrow.
    eapply (for_loop_returns_inv I); [|exact Hb|exact Hrow].
    intros x s h2 s' [Hlen Hbytes] Hstep.
    apply bind_returns_inv in Hstep as (pixel & Hp & Hs).
    rewrite (pack_pixels_emits img threshold x y h2) in Hp, Hs.
    injection Hp as <-. unfold index_set in Hs.
    destruct ((0 <=? y * pixelWidth d + x `quot` PIXEL_SIZE)
              && (y * pixelWidth d + x `quot` PIXEL_SIZE <? Z.of_nat (length s)));
      [|done].
    injection Hs as <-. split; [by rewrite length_insert|].
    apply Forall_insert; [done | apply group_byte_packed].
  - split; [rewrite length_replicate; lia|].
    apply Forall_replicate, group_byte_zero.
Qed.

(** X5. Whenever [getBuffer] returns, on whatever driver struct, the buffer
    has exactly the [bufferSize] bytes of that struct. *)
Theorem getBuffer_length_of_struct e (img : Image) threshold h buffer :
  result (getBuffer e img threshold h) = Returns buffer ->
  exists l d,
    e = Some l /\ h !! l = Some d /\ Z.of_nat (length buffer) = bufferSize d.
Proof.
  intros (l & d & He & Hl & Hlen & _)%getBuffer_returns_inv. eauto.
Qed.

(** X6. Whenever [getBuffer] returns, every element of the buffer is a byte,
    between 0 and 255, and only its [PIXEL_SIZE] most significant bits can be
    set: with fewer than eight pixels per byte the low bits stay clear. *)
Theorem getBuffer_bytes e (img : Image) threshold h buffer :
  result (getBuffer e img threshold h) = Returns buffer ->
  forall b, b ∈ buffer ->
    0 <= b < 256 /\
    forall i, 0 <= i < 8 - PIXEL_SIZE -> Z.testbit b i = false.
Proof.
  intros (l & d & _ & _ & _ & Hbytes)%getBuffer_returns_inv b Hb.
  rewrite Forall_forall in Hbytes. exact (Hbytes b Hb).
Qed.

Lemma quiet_getBuffer e (img : Image) threshold : quiet (getBuffer e img threshold).
Proof.
  unfold getBuffer, pack_pixels, for_lt, for_step.
  repeat first
    [ apply quiet_println | apply quiet_ret | apply quiet_load
    | apply quiet_make_bytes | apply quiet_index_set
    | apply quiet_bind; [|intros]
    | apply quiet_for_loop; intros
    | match goal with |- quiet (if ?b then _ else _) => destruct b end ].
Qed.

(** X7. [getBuffer] and [Bounds] are silent on every driver, image and
    threshold, whether they return or panic: they emit nothing but log lines
    and leave every driver struct as it was. *)
Theorem getBuffer_silent e (img : Image) threshold h :
  panel_io (emitted (getBuffer e img threshold h)) = [] /\
  heap_after (getBuffer e img threshold h) = h /\
  panel_io (emitted (Bounds e h)) = [] /\
  heap_after (Bounds e h) = h.
Proof.
  split; [apply quiet_getBuffer|]. split; [apply preserves_getBuffer|].
  split.
  - unfold Bounds. apply quiet_bind; [apply quiet_load | intros; apply quiet_ret].
  - unfold Bounds. apply preserves_bind; [apply preserves_load | intros; apply preserves_ret].
Qed.

(** X8. [DisplayImage] packs before it sends: when [getBuffer] does not
    return, [DisplayImage] does not return either and has sent no command and
    no data, so the panel keeps what it showed. *)
Theorem DisplayImage_packs_first e (img : Image) h :
  (forall buffer, result (getBuffer e img 199 h) <> Returns buffer) ->
  panel_io (emitted (DisplayImage e img h)) = [] /\
  forall u, result (DisplayImage e img h) <> Returns u.
Proof.
  intros Hpack. unfold DisplayImage, println. rewrite bind_emit.
  cbn [result emitted].
  destruct (bind_not_returns (getBuffer e img 199)
              (fun buffer => display e buffer ;; emit (EvLog "Image displayed")) h Hpack)
    as [-> Hres].
  split; [|exact Hres].
  change (panel_io (emitted (getBuffer e img 199 h)) = []). apply quiet_getBuffer.
Qed.

(** X9. On a driver built by [New], for a geometry of whole groups, the
    buffer depends on the image only through the classification of the pixels
    of the panel: two images and thresholds that [isBlack] judges alike on
    [0, W) x [0, H) pack to the same buffer, whatever they are elsewhere. *)
Theorem getBuffer_reads_panel_only l h (img1 img2 : Image) t1 t2 :
  native_geometry -> h !! l = Some new_epd ->
  (forall x y, 0 <= x < EPD_WIDTH -> 0 <= y < EPD_HEIGHT ->
     isBlack (img1 x y) t1 = isBlack (img2 x y) t2) ->
  getBuffer (Some l) img1 t1 h = getBuffer (Some l) img2 t2 h.
Proof.
  intros Hgeo Hl Hsame.
  rewrite !(getBuffer_run l h _ _ Hgeo Hl). do 2 f_equal.
  pose proof Hgeo as (HG & _).
  apply list_eq. intros i. unfold packed_buffer. rewrite !list_lookup_fmap.
  destruct (seqZ 0 (row_bytes * EPD_HEIGHT) !! i) as [j|] eqn:Hj; [|done].
  apply lookup_seqZ in Hj as [-> Hi]. simpl. f_equal. unfold byte_at.
  rewrite Z.add_0_l.
  assert (forall k : nat, (k <= Z.to_nat PIXEL_SIZE)%nat ->
    packed_byte img1 t1 ((Z.of_nat i `mod` row_bytes) * PIXEL_SIZE)
      (Z.of_nat i `div` row_bytes) k =
    packed_byte img2 t2 ((Z.of_nat i `mod` row_bytes) * PIXEL_SIZE)
      (Z.of_nat i `div` row_bytes) k) as Hk; [|by apply Hk].
  induction k as [|k IH]; intros Hle; [done|]. cbn [packed_byte].
  rewrite IH by lia.
  destruct (group_in_panel (Z.of_nat i) (Z.of_nat k) Hgeo) as [Hx Hy]; [lia..|].
  by rewrite (Hsame _ _ Hx Hy).
Qed.

(** *** Widths that are not whole groups *)

Lemma ragged_row_bytes :
  ragged_geometry ->
  0 <= row_bytes /\ row_bytes * PIXEL_SIZE < EPD_WIDTH /\
  EPD_WIDTH < (row_bytes + 1) * PIXEL_SIZE.
Proof.
  intros (HG & HW & HH & Hrem & _). unfold row_bytes.
  pose proof (Z.quot_rem' EPD_WIDTH PIXEL_SIZE) as Hqr.
  pose proof (Z.rem_bound_pos EPD_WIDTH PIXEL_SIZE HW HG) as Hr.
  pose proof (Z.quot_pos EPD_WIDTH PIXEL_SIZE HW HG) as Hq.
  nia.
Qed.

(** A row whose last group still falls inside the buffer. *)
Lemma ragged_row_emits (img : Image) threshold y buffer :
  ragged_geometry ->
  0 <= y -> (y + 1) * row_bytes < row_bytes * EPD_HEIGHT ->
  Z.of_nat (length buffer) = row_bytes * EPD_HEIGHT ->
  exists buffer',
    emits
      (for_step 0 EPD_WIDTH PIXEL_SIZE (fun x buffer =>
         pixel <- pack_pixels img threshold x y ;;
         index_set buffer (y * row_bytes + x `quot` PIXEL_SIZE) pixel) buffer)
      buffer' []
    /\ Z.of_nat (length buffer') = row_bytes * EPD_HEIGHT.
Proof.
  intros Hgeo Hy Hrow Hlen.
  destruct (ragged_row_bytes Hgeo) as (Hrb0 & Hlo & Hhi).
  destruct Hgeo as (HG & _).
  destruct (for_step_emits
    (fun (k : nat) (b : list Z) evs =>
       evs = [] /\ Z.of_nat (length b) = row_bytes * EPD_HEIGHT)
    0 EPD_WIDTH PIXEL_SIZE
    (fun x buffer =>
       pixel <- pack_pixels img threshold x y ;;
       index_set buffer (y * row_bytes + x `quot` PIXEL_SIZE) pixel)
    (Z.to_nat (row_bytes + 1)) buffer)
    as (buffer' & evs & Hrun & -> & Hlen'); [lia | nia | nia | | done | by eauto].
  intros k b evs Hk [-> Hb].
  eexists _, []. split.
  - replace [] with (@nil event ++ []) by done.
    eapply emits_bind; [apply pack_pixels_emits|].
    rewrite Z.add_0_l, Z.quot_mul by lia. unfold index_set.
    rewrite (proj2 (Z.leb_le 0 _)), (proj2 (Z.ltb_lt _ _)) by nia.
    apply emits_ret.
  - by rewrite length_insert.
Qed.

(** A row whose groups reach the end of the buffer. *)
Lemma ragged_row_panics (img : Image) threshold y buffer :
  ragged_geometry ->
  0 <= y -> y * row_bytes <= row_bytes * EPD_HEIGHT <= (y + 1) * row_bytes ->
  Z.of_nat (length buffer) = row_bytes * EPD_HEIGHT ->
  panics
    (for_step 0 EPD_WIDTH PIXEL_SIZE (fun x buffer =>
       pixel <- pack_pixels img threshold x y ;;
       index_set buffer (y * row_bytes + x `quot` PIXEL_SIZE) pixel) buffer)
    "index out of range" [].
Proof.
  intros Hgeo Hy Hrow Hlen.
  destruct (ragged_row_bytes Hgeo) as (Hrb0 & Hlo & Hhi).
  destruct Hgeo as (HG & _).
  destruct (for_step_panics
    (fun (k : nat) (b : list Z) evs =>
       evs = [] /\ Z.of_nat (length b) = row_bytes * EPD_HEIGHT)
    0 EPD_WIDTH PIXEL_SIZE
    (fun x buffer =>
       pixel <- pack_pixels img threshold x y ;;
       index_set buffer (y * row_bytes + x `quot` PIXEL_SIZE) pixel)
    (Z.to_nat (row_bytes * EPD_HEIGHT - y * row_bytes)) buffer
    "index out of range" [])
    as (b1 & evs1 & [-> _] & Hrun); [lia | nia | | | done | exact Hrun].
  - intros k b evs Hk [-> Hb].
    eexists _, []. split.
    + replace [] with (@nil event ++ []) by done.
      eapply emits_bind; [apply pack_pixels_emits|].
      rewrite Z.add_0_l, Z.quot_mul by lia. unfold index_set.
      rewrite (proj2 (Z.leb_le 0 _)), (proj2 (Z.ltb_lt _ _)) by nia.
      apply emits_ret.
    + by rewrite length_insert.
  - intros b evs [-> Hb].
    replace [] with (@nil event ++ []) by done.
    eapply panics_bind_r; [apply pack_pixels_emits|].
    rewrite Z.add_0_l, Z.quot_mul by lia. apply index_set_out. lia.
Qed.

(** X10. On a driver built by [New], when the width is not a whole number of
    groups, [getBuffer] panics on every image and threshold: the last group of
    a row is written one byte past the row, and for the last row that is past
    the buffer.  With C2, [getBuffer] returns exactly when [PIXEL_SIZE]
    divides [EPD_WIDTH]. *)
Theorem getBuffer_ragged_panics l h (img : Image) threshold :
  ragged_geometry -> h !! l = Some new_epd ->
  getBuffer (Some l) img threshold h =
    Run (Panics "index out of range") h [EvLog "Getting buffer"].
Proof.
  intros Hgeo Hl.
  destruct (ragged_row_bytes Hgeo) as (Hrb0 & Hlo & Hhi).
  pose proof Hgeo as (HG & HW & HH & _).
  destruct (new_epd_bounds HW ltac:(lia)) as [HDx HDy].
  unfold getBuffer, println. rewrite bind_emit, (bind_load _ l new_epd h Hl).
  rewrite HDx, HDy.
  change (bufferSize new_epd) with (row_bytes * EPD_HEIGHT).
  change (pixelWidth new_epd) with row_bytes.
  unfold make_bytes. rewrite (proj2 (Z.ltb_ge _ 0)) by nia.
  rewrite (bind_emits_run _ _ _ [] h (emits_ret _)).
  set (y0 := if decide (row_bytes = 0) then 0 else EPD_HEIGHT - 1).
  assert (0 <= y0 < EPD_HEIGHT) as Hy0 by (unfold y0; case_decide; lia).
  destruct (for_step_panics
    (fun (k : nat) (b : list Z) evs =>
       evs = [] /\ Z.of_nat (length b) = row_bytes * EPD_HEIGHT)
    0 EPD_HEIGHT 1
    (fun y buffer =>
       for_step 0 EPD_WIDTH PIXEL_SIZE (fun x buffer =>
         pixel <- pack_pixels img threshold x y ;;
         index_set buffer (y * row_bytes + x `quot` PIXEL_SIZE) pixel) buffer)
    (Z.to_nat y0) (replicate (Z.to_nat (row_bytes * EPD_HEIGHT)) 0)
    "index out of range" [])
    as (b1 & evs1 & [-> _] & Hrun); [lia | lia | | | |].
  - intros k b evs Hk [-> Hb].
    destruct (ragged_row_emits img threshold (0 + Z.of_nat k * 1) b Hgeo)
      as (b' & Hrow & Hb'); [lia | | done | by exists b', []].
    unfold y0 in Hk. case_decide; [lia | nia].
  - intros b evs [-> Hb]. apply ragged_row_panics; [done | lia | | done].
    rewrite Z2Nat.id by lia. unfold y0. case_decide; nia.
  - split; [done|]. rewrite length_replicate. nia.
  - unfold for_lt.
    by rewrite (panics_bind_l _ _ _ _ Hrun h).
Qed.

(** *** The buffer of [Clear] *)

Lemma data_writes_app (evs1 evs2 : list event) :
  data_writes (evs1 ++ evs2) = data_writes evs1 ++ data_writes evs2.
Proof. apply omap_app. Qed.

Lemma data_writes_replicate (n : nat) (data : list Z) :
  data_writes (replicate n (EvSendData data)) = replicate n data.
Proof. induction n as [|n IH]; [done|]. simpl. by rewrite <- IH. Qed.

Lemma fill_panics (img : list Z) (v w : Z) :
  Z.of_nat (length img) < w ->
  panics (for_lt 0 w (fun i img => index_set img i v) img) "index out of range" [].
Proof.
  intros Hw. unfold for_lt.
  destruct (for_step_panics
    (fun (k : nat) (b : list Z) evs => evs = [] /\ length b = length img)
    0 w 1 (fun i img => index_set img i v) (length img) img
    "index out of range" [])
    as (b1 & evs1 & [-> _] & Hrun); [lia | lia | | | done | exact Hrun].
  - intros k b evs Hk [-> Hb]. eexists _, []. split.
    + unfold index_set.
      rewrite (proj2 (Z.leb_le 0 _)), (proj2 (Z.ltb_lt _ _)) by lia.
      apply emits_ret.
    + by rewrite length_insert.
  - intros b evs [-> Hb]. apply index_set_out. lia.
Qed.

(** X11. The buffer of [Clear] has [EPD_WIDTH / 8] bytes whatever
    [PIXEL_SIZE] is.  When the [w] bytes of a row do not fit in it, as with
    eight pixels per byte and a width that is not a multiple of eight, [Clear]
    panics in its first fill: it has sent command 0x10 and no scanline. *)
Theorem Clear_overflow_panics e h :
  0 <= EPD_WIDTH -> EPD_WIDTH `quot` 8 < clear_width ->
  Clear e h =
    Run (Panics "index out of range") h
      [ EvLog "Clearing display"; EvSendCommand 0x10 ].
Proof.
  intros HW Hw.
  pose proof (Z.quot_pos EPD_WIDTH 8 HW ltac:(lia)) as Hq.
  enough (panics (Clear e) "index out of range"
            ([EvLog "Clearing display"] ++ [] ++ [EvSendCommand 0x10] ++ []))
    as Hrun by apply Hrun.
  unfold Clear, println, sendCommand. fold clear_width.
  eapply panics_bind_r; [apply emits_emit|].
  unfold make_bytes. rewrite (proj2 (Z.ltb_ge _ 0)) by lia.
  eapply panics_bind_r; [apply emits_ret|].
  eapply panics_bind_r; [apply emits_emit|].
  apply panics_bind_l, fill_panics. rewrite length_replicate. lia.
Qed.

(** X12. When the [w] bytes of a row fit in the buffer of [Clear], [Clear]
    returns and every scanline it sends has [EPD_WIDTH / 8] bytes: in the
    first phase [w] bytes 0xFF followed by bytes 0x00, in the second phase
    bytes 0x00 only, [EPD_HEIGHT] scanlines in each. *)
Theorem Clear_scanlines e h :
  0 <= EPD_WIDTH -> 0 <= EPD_HEIGHT ->
  0 <= clear_width <= EPD_WIDTH `quot` 8 ->
  result (Clear e h) = Returns tt /\
  data_writes (emitted (Clear e h)) =
    replicate (Z.to_nat EPD_HEIGHT)
      (replicate (Z.to_nat clear_width) 0xFF ++
       replicate (Z.to_nat (EPD_WIDTH `quot` 8) - Z.to_nat clear_width) 0x00) ++
    replicate (Z.to_nat EPD_HEIGHT)
      (replicate (Z.to_nat (EPD_WIDTH `quot` 8)) 0x00) /\
  Forall (fun data => Z.of_nat (length data) = EPD_WIDTH `quot` 8)
    (data_writes (emitted (Clear e h))).
Proof.
  intros HW HH Hw. rewrite (Clear_run e h HW HH Hw). fold clear_width.
  split; [done|]. cbn [emitted].
  assert (forall a b c d x y,
    data_writes (a ++ replicate x (EvSendData c) ++ b ++
                 replicate y (EvSendData d) ++ [ EvLog "Turning on display";
                   EvSendCommand 0x12; EvWait 100; EvWaitUntilIdle;
                   EvLog "Display turned on"; EvLog "Display cleared" ]) =
    data_writes a ++ replicate x c ++ data_writes b ++ replicate y d) as Hdw.
  { intros. rewrite !data_writes_app, !data_writes_replicate.
    by rewrite app_nil_r. }
  rewrite Hdw.
  change (data_writes [EvLog "Clearing display"; EvSendCommand 16]) with (@nil (list Z)).
  change (data_writes [EvSendCommand 19]) with (@nil (list Z)).
  cbn [app]. split; [done|].
  apply Forall_app. split; apply Forall_replicate.
  - rewrite length_app, !length_replicate. lia.
  - rewrite length_replicate. lia.
Qed.

End DriverEdges.

(** ** The further theorems at concrete panels *)

(** X1 at the panel: chip select is pin 8, data/command pin 25, reset pin 17. *)
Lemma Close_sequence_witness :
  Close (Some O) (one_driver waveshare_panel) =
    Run (Returns tt) (one_driver waveshare_panel)
      [ EvLog "Closing display";
        EvPinWrite 8 rpio.Low; EvPinWrite 25 rpio.Low; EvPinWrite 17 rpio.Low;
        EvSpiEnd rpio.Spi0; EvClose;
        EvLog "Display closed" ].
Proof.
  exact (proj1 (Close_sequence O _ (one_driver waveshare_panel) waveshare_driver)).
Defined.


Lemma getBuffer_small_result :
  result (getBuffer (K := small_panel) (D := gray_darkness)
            (Some O) (stripe 3) 199 (one_driver small_panel))
    = Returns [0x10; 0x00; 0x10; 0x00].
Proof. vm_compute. reflexivity. Qed.

(** X5 on the small panel: four bytes, the [bufferSize] of its struct. *)
Lemma getBuffer_length_of_struct_witness :
  exists l d,
    Some O = Some l /\ one_driver small_panel !! l = Some d /\
    Z.of_nat (length [0x10; 0x00; 0x10; 0x00]) = bufferSize d.
Proof.
  exact (getBuffer_length_of_struct (K := small_panel) (D := gray_darkness)
           (Some O) (stripe 3) 199 (one_driver small_panel) _
           getBuffer_small_result).
Defined.

(** X6 on the small panel: the byte of the stripe. *)
Lemma getBuffer_bytes_witness :
  0 <= 0x10 < 256 /\
  forall i, 0 <= i < 8 - PIXEL_SIZE (Constants := small_panel) ->
    Z.testbit 0x10 i = false.
Proof.
  apply (getBuffer_bytes (K := small_panel) (D := gray_darkness)
           (Some O) (stripe 3) 199 (one_driver small_panel) _
           getBuffer_small_result).
  constructor.
Defined.

Lemma ragged_panel_geometry : ragged_geometry (K := ragged_panel).
Proof. unfold ragged_geometry, fits_int. panel_arith. Qed.

Lemma ragged_panel_driver :
  one_driver ragged_panel !! O = Some (new_epd (K := ragged_panel)).
Proof. apply lookup_singleton_eq. Qed.

(** X10 on a panel of width 12. *)
Lemma getBuffer_ragged_panics_witness :
  getBuffer (K := ragged_panel) (D := gray_darkness)
    (Some O) all_black 199 (one_driver ragged_panel) =
  Run (Panics "index out of range") (one_driver ragged_panel)
    [EvLog "Getting buffer"].
Proof.
  exact (getBuffer_ragged_panics (K := ragged_panel) (D := gray_darkness)
           O (one_driver ragged_panel) all_black 199
           ragged_panel_geometry ragged_panel_driver).
Defined.

(** X8 on a panel of width 12: nothing is sent. *)
Lemma DisplayImage_packs_first_witness :
  panel_io (emitted (DisplayImage (K := ragged_panel) (D := gray_darkness)
                       (Some O) all_black (one_driver ragged_panel))) = [] /\
  forall u,
    result (DisplayImage (K := ragged_panel) (D := gray_darkness)
              (Some O) all_black (one_driver ragged_panel)) <> Returns u.
Proof.
  apply (DisplayImage_packs_first (K := ragged_panel) (D := gray_darkness)).
  intros buffer. vm_compute. discriminate.
Defined.

(** X9 at the panel: what lies right of column 799 does not matter. *)
Lemma getBuffer_reads_panel_only_witness :
  getBuffer (K := waveshare_panel) (D := gray_darkness)
    (Some O) (stripe 11) 199 (one_driver waveshare_panel) =
  getBuffer (K := waveshare_panel) (D := gray_darkness)
    (Some O) (stripe_beyond 11) 199 (one_driver waveshare_panel).
Proof.
  apply (getBuffer_reads_panel_only (K := waveshare_panel) (D := gray_darkness));
    [exact waveshare_geometry | exact waveshare_driver |].
  cbn. intros x y Hx Hy. unfold stripe_beyond.
  by rewrite (proj2 (Z.leb_gt 800 x)) by lia.
Defined.

(** X11 on a panel of width 12: a row of two bytes, a buffer of one. *)
Lemma Clear_overflow_panics_witness :
  Clear (K := ragged_panel) (Some O) (one_driver ragged_panel) =
    Run (Panics "index out of range") (one_driver ragged_panel)
      [ EvLog "Clearing display"; EvSendCommand 0x10 ].
Proof.
  apply (Clear_overflow_panics (K := ragged_panel)); panel_arith.
Defined.

(** X12 at the panel: every scanline has 100 bytes. *)
Lemma Clear_scanlines_witness :
  result (Clear (K := waveshare_panel) (Some O) (one_driver waveshare_panel))
    = Returns tt /\
  Forall (fun data => Z.of_nat (length data) = 100)
    (data_writes
       (emitted (Clear (K := waveshare_panel) (Some O) (one_driver waveshare_panel)))).
Proof.
  destruct (Clear_scanlines (K := waveshare_panel) (Some O)
              (one_driver waveshare_panel))
    as (Hres & _ & Hlen); [panel_arith | panel_arith | panel_arith |].
  split; [exact Hres | exact Hlen].
Defined.
